(** * Timer bot: the store (database.py), the backup manager (backup.py),
    the configuration (config.py) and the command handlers and the
    maintenance pass of main.py, embedded as executable definitions.

    Conventions of the embedding.
    - A point in time is an integer number of microseconds since the epoch
      (the resolution of Python's [datetime]); one hour is [hour]
      microseconds and one day is [day] microseconds.
    - A table is the list of its rows in insertion order.  SQL [SELECT]
      is a filter, [UPDATE] a map, [INSERT] appends a row.
    - Every call into the storage layer (connect, execute, fetch, commit)
      and the time computation at the head of [add_timer] and of
      [check_expired_timers] may raise.  Which call raises is decided by a
      fault plan, a list of booleans consumed one per call; the empty plan
      never raises.
    - A connection works on a private copy of the database; [commit]
      publishes it.  Leaving the connection without a commit discards the
      copy, which is how SQLite rolls an open transaction back. *)

From Stdlib Require Import ZArith Lia List Bool Ascii String Sorted Permutation.
From Stdlib Require Import DecimalString.
From stdpp Require Import gmap strings list fin_maps.
Import ListNotations.

Local Open Scope Z_scope.

Definition hour : Z := 3600 * 1000000.
Definition day : Z := 24 * hour.

(** ** Exceptions over a state

    Python's [try]/[except] over code with effects: a computation takes the
    state, and either returns a value or raises, with the state it left. *)

Inductive result (A : Type) : Type :=
| Ok (a : A)
| Raised.
Arguments Ok {A} a.
Arguments Raised {A}.

Definition M (S A : Type) : Type := S -> result A * S.

Definition ret {S A} (a : A) : M S A := fun s => (Ok a, s).

Definition raise {S A} : M S A := fun s => (Raised, s).

Definition bind {S A B} (m : M S A) (k : A -> M S B) : M S B :=
  fun s => match m s with
           | (Ok a, s') => k a s'
           | (Raised, s') => (Raised, s')
           end.

(** [try: m except Exception: handler] *)
Definition try_except {S A} (m : M S A) (handler : M S A) : M S A :=
  fun s => match m s with
           | (Ok a, s') => (Ok a, s')
           | (Raised, s') => handler s'
           end.

Notation "x <- m ;; k" := (bind m (fun x => k))
  (at level 100, m at next level, right associativity).
Notation "m ;;; k" := (bind m (fun _ => k))
  (at level 100, right associativity).

(** ** config.py *)
Module Conf.

Record Config := {
  bot_token : string;
  max_timers : Z;
  max_duration : Z;
  min_duration : Z;
  backup_interval : Z;
  maintenance_interval : Z;
  backup_keep_days : Z;
  check_interval : Z
}.

(** The dataclass constructor with every defaulted field left out. *)
Definition default_config (token : string) : Config :=
  {| bot_token := token;
     max_timers := 3;
     max_duration := 168;
     min_duration := 1;
     backup_interval := 24 * 60 * 60;
     maintenance_interval := 12 * 60 * 60;
     backup_keep_days := 7;
     check_interval := 60 |}.

(** [load_config]: [getenv] is the argument; a missing or empty token
    raises [ValueError]. *)
Definition load_config (getenv : option string) : option Config :=
  match getenv with
  | None => None
  | Some EmptyString => None
  | Some token => Some (default_config token)
  end.

End Conf.

(** ** database.py *)
Module Store.

Inductive Status := active | completed | cancelled.

Definition status_eqb (a b : Status) : bool :=
  match a, b with
  | active, active | completed, completed | cancelled, cancelled => true
  | _, _ => false
  end.

(** A row of table [users].  Column [created_at] is written by SQLite's
    clock and read by no statement; it is left out. *)
Record User := {
  user_id : Z;
  username : string;
  active_timers : Z
}.

(** A row of table [timers]; [t_user_id] is its column [user_id]. *)
Record Timer := {
  timer_id : Z;
  t_user_id : Z;
  start_time : Z;
  end_time : Z;
  duration : Z;
  timer_number : Z;
  status : Status;
  notified : bool
}.

(** The database file: both tables and the AUTOINCREMENT counter that
    SQLite keeps in [sqlite_sequence] for table [timers]. *)
Record Db := {
  users : list User;
  timers : list Timer;
  seq : Z
}.

(** The database right after [create_tables] on a new file. *)
Definition create_tables : Db := {| users := []; timers := []; seq := 0 |}.

(** *** SQL fragments *)

(** [WHERE user_id = ? AND status = 'active'] *)
Definition active_of (u : Z) (t : Timer) : bool :=
  (t_user_id t =? u) && status_eqb (status t) active.

(** [SELECT COUNT( * ) FROM timers WHERE user_id = ? AND status = 'active'].
    [add_timer] writes the literal in double quotes; no column has that
    name, so SQLite reads it as the same string. *)
Definition count_active (u : Z) (db : Db) : Z :=
  Z.of_nat (length (List.filter (active_of u) (timers db))).

(** [MAX] over a column: [NULL] on no rows. *)
Fixpoint sql_max (l : list Z) : option Z :=
  match l with
  | [] => None
  | x :: r => match sql_max r with
              | None => Some x
              | Some m => Some (Z.max x m)
              end
  end.

Definition coalesce (o : option Z) (d : Z) : Z :=
  match o with Some v => v | None => d end.

Definition numbers_of (u : Z) (db : Db) : list Z :=
  List.map timer_number (List.filter (fun t => t_user_id t =? u) (timers db)).

(** [SELECT COALESCE(MAX(timer_number), 0) + 1 FROM timers WHERE user_id = ?] *)
Definition next_timer_number (u : Z) (db : Db) : Z :=
  coalesce (sql_max (numbers_of u db)) 0 + 1.

(** The rowid an AUTOINCREMENT insert picks: one more than the largest
    rowid the table holds or has ever held. *)
Definition next_rowid (db : Db) : Z :=
  Z.max (seq db) (coalesce (sql_max (List.map timer_id (timers db))) 0) + 1.

(** The [INSERT INTO timers] of [add_timer]; [status] is ['active'] and
    [notified] takes its default [FALSE]. *)
Definition insert_timer (u start stop d : Z) (db : Db) : Db :=
  let id := next_rowid db in
  {| users := users db;
     timers := timers db ++
       [ {| timer_id := id; t_user_id := u; start_time := start;
            end_time := stop; duration := d;
            timer_number := next_timer_number u db;
            status := active; notified := false |} ];
     seq := id |}.

Definition set_active_timers (n : Z) (r : User) : User :=
  {| user_id := user_id r; username := username r; active_timers := n |}.

(** [UPDATE users SET active_timers = (SELECT COUNT...) WHERE user_id = ?] *)
Definition recount_user (u : Z) (db : Db) : Db :=
  {| users := List.map (fun r => if user_id r =? u
                                 then set_active_timers (count_active u db) r
                                 else r) (users db);
     timers := timers db;
     seq := seq db |}.

(** The same [UPDATE] without a [WHERE]: every user row is recounted. *)
Definition recount_all (db : Db) : Db :=
  {| users := List.map (fun r => set_active_timers (count_active (user_id r) db) r)
                       (users db);
     timers := timers db;
     seq := seq db |}.

(** [INSERT OR IGNORE INTO users (user_id, username)]: [active_timers]
    takes its default 0; a row with the same primary key wins. *)
Definition insert_user (u : Z) (name : string) (db : Db) : Db :=
  if List.existsb (fun r => user_id r =? u) (users db) then db
  else {| users := users db ++ [ {| user_id := u; username := name; active_timers := 0 |} ];
          timers := timers db;
          seq := seq db |}.

(** [WHERE t.status = 'active' AND t.end_time <= ? AND t.notified = FALSE] *)
Definition expired_at (now : Z) (t : Timer) : bool :=
  status_eqb (status t) active && (end_time t <=? now) && negb (notified t).

(** [SELECT t.*, u.username FROM timers t JOIN users u ON ...] *)
Definition select_expired (now : Z) (db : Db) : list (Timer * string) :=
  List.flat_map
    (fun t => List.map (fun r => (t, username r))
                (List.filter (fun r => user_id r =? t_user_id t) (users db)))
    (List.filter (expired_at now) (timers db)).

Definition mem (x : Z) (l : list Z) : bool := List.existsb (Z.eqb x) l.

Definition set_status (s : Status) (n : bool) (t : Timer) : Timer :=
  {| timer_id := timer_id t; t_user_id := t_user_id t;
     start_time := start_time t; end_time := end_time t;
     duration := duration t; timer_number := timer_number t;
     status := s; notified := n |}.

(** [UPDATE timers SET status = 'completed', notified = TRUE
    WHERE timer_id IN (...)] *)
Definition complete_ids (ids : list Z) (db : Db) : Db :=
  {| users := users db;
     timers := List.map (fun t => if mem (timer_id t) ids
                                  then set_status completed true t else t)
                        (timers db);
     seq := seq db |}.

(** [UPDATE timers SET status = 'cancelled'
    WHERE user_id = ? AND timer_number = ? AND status = 'active'] *)
Definition cancel_matching (u n : Z) (db : Db) : Db :=
  {| users := users db;
     timers := List.map (fun t => if active_of u t && (timer_number t =? n)
                                  then set_status cancelled (notified t) t else t)
                        (timers db);
     seq := seq db |}.

(** *** Connections and transactions *)

Record Session := {
  committed : Db;
  working : Db;
  faults : list bool
}.

Definition Sql (A : Type) : Type := M Session A.

(** One call that may raise: it consumes the head of the fault plan. *)
Definition call : Sql unit :=
  fun s => match faults s with
           | [] => (Ok tt, s)
           | b :: fs =>
             let s' := {| committed := committed s; working := working s; faults := fs |} in
             if b then (Raised, s') else (Ok tt, s')
           end.

(** [db.execute] of a statement that writes; the value is what the cursor
    reports afterwards (its [lastrowid]). *)
Definition execute_returning {A} (f : Db -> A * Db) : Sql A :=
  call ;;; fun s => (Ok (fst (f (working s))),
                     {| committed := committed s;
                        working := snd (f (working s));
                        faults := faults s |}).

Definition execute (f : Db -> Db) : Sql unit :=
  execute_returning (fun db => (tt, f db)).

(** [db.execute] of a [SELECT] followed by a fetch: two calls. *)
Definition query {A} (q : Db -> A) : Sql A :=
  call ;;; call ;;; fun s => (Ok (q (working s)), s).

Definition commit : Sql unit :=
  call ;;; fun s => (Ok tt, {| committed := working s;
                              working := working s;
                              faults := faults s |}).

(** [async with aiosqlite.connect(...) as db: body].  The result is the
    outcome of the body and the database as it is on disk afterwards. *)
Definition connect {A} (body : Sql A) (fs : list bool) (db : Db) : result A * Db :=
  let '(r, s) := (call ;;; body) {| committed := db; working := db; faults := fs |} in
  (r, committed s).

(** *** The operations

    Each takes the fault plan of the call first and returns its Python
    result with the database left on disk. *)

Definition add_user (fs : list bool) (u : Z) (name : string) (db : Db) : bool * Db :=
  match connect (execute (insert_user u name) ;;; commit ;;; ret true) fs db with
  | (Ok b, db') => (b, db')
  | (Raised, db') => (false, db')
  end.

(** [now] is what [datetime.now()] returns.  The first fault slot stands
    for the computation of [end_time], which overflows on a duration out
    of [datetime]'s range. *)
Definition add_timer (fs : list bool) (u d now : Z) (db : Db) : option Z * Db :=
  match fs with
  | true :: _ => (None, db)
  | _ =>
    let start := now in
    let stop := start + d * hour in
    match connect
            (n <- query (count_active u) ;;
             if 3 <=? n then ret None
             else
               id <- execute_returning
                       (fun w => (next_rowid w, insert_timer u start stop d w)) ;;
               execute (recount_user u) ;;;
               commit ;;;
               ret (Some id))
            (List.tl fs) db with
    | (Ok r, db') => (r, db')
    | (Raised, db') => (None, db')
    end
  end.

Definition ids_of (rows : list (Timer * string)) : list Z :=
  List.map (fun row => timer_id (fst row)) rows.

(** [now] is [datetime.now().timestamp()]; the first fault slot stands
    for that computation. *)
Definition check_expired_timers (fs : list bool) (now : Z) (db : Db)
  : list (Timer * string) * Db :=
  match fs with
  | true :: _ => ([], db)
  | _ =>
    match connect
            (expired_timers <- query (select_expired now) ;;
             match expired_timers with
             | [] => ret expired_timers
             | _ :: _ =>
               execute (complete_ids (ids_of expired_timers)) ;;;
               execute recount_all ;;;
               commit ;;;
               ret expired_timers
             end)
            (List.tl fs) db with
    | (Ok r, db') => (r, db')
    | (Raised, db') => ([], db')
    end
  end.

Definition delete_timer (fs : list bool) (u n : Z) (db : Db) : bool * Db :=
  match connect
          (execute (cancel_matching u n) ;;;
           execute (recount_user u) ;;;
           commit ;;;
           ret true)
          fs db with
  | (Ok b, db') => (b, db')
  | (Raised, db') => (false, db')
  end.

(** *** Histories: the operations that change the store, in sequence *)

Inductive Op :=
| AddUser (fs : list bool) (u : Z) (name : string)
| AddTimer (fs : list bool) (u d now : Z)
| DeleteTimer (fs : list bool) (u n : Z)
| ScanExpired (fs : list bool) (now : Z).

Definition step (db : Db) (o : Op) : Db :=
  match o with
  | AddUser fs u name => snd (add_user fs u name db)
  | AddTimer fs u d now => snd (add_timer fs u d now db)
  | DeleteTimer fs u n => snd (delete_timer fs u n db)
  | ScanExpired fs now => snd (check_expired_timers fs now db)
  end.

Definition run (ops : list Op) (db : Db) : Db := List.fold_left step ops db.

(** *** The transactions, each as the one transition its commit publishes *)

Definition add_timer_tx (u d now : Z) (db : Db) : Db :=
  recount_user u (insert_timer u now (now + d * hour) d db).

Definition delete_timer_tx (u n : Z) (db : Db) : Db :=
  recount_user u (cancel_matching u n db).

Definition check_expired_tx (now : Z) (db : Db) : Db :=
  recount_all (complete_ids (ids_of (select_expired now db)) db).

(** What one operation publishes: nothing, or its transaction. *)
Inductive publishes (db : Db) : Op -> Db -> Prop :=
| pub_nothing o : publishes db o db
| pub_user fs u name : publishes db (AddUser fs u name) (insert_user u name db)
| pub_timer fs u d now :
    count_active u db < 3 -> publishes db (AddTimer fs u d now) (add_timer_tx u d now db)
| pub_delete fs u n : publishes db (DeleteTimer fs u n) (delete_timer_tx u n db)
| pub_scan fs now : publishes db (ScanExpired fs now) (check_expired_tx now db).

(** No row carrying [id] is active, and no later insert can pick [id]. *)
Definition retired (id : Z) (db : Db) : Prop :=
  (forall t, In t (timers db) -> timer_id t = id -> status t <> active) /\
  id < next_rowid db.

(** The cache [active_timers] of every user row agrees with the table. *)
Definition counts_agree (db : Db) : Prop :=
  forall r, In r (users db) -> active_timers r = count_active (user_id r) db.

Definition counts_agreeb (db : Db) : bool :=
  List.forallb (fun r => active_timers r =? count_active (user_id r) db) (users db).

(** *** Reading the active timers *)

(** [ORDER BY timer_number], as an insertion sort that keeps rows with
    equal numbers in table order. *)
Fixpoint insert_by_number (t : Timer) (l : list Timer) : list Timer :=
  match l with
  | [] => [t]
  | x :: r => if timer_number t <=? timer_number x then t :: l
              else x :: insert_by_number t r
  end.

Definition order_by_timer_number (l : list Timer) : list Timer :=
  List.fold_right insert_by_number [] l.

(** [SELECT * FROM timers WHERE user_id = ? AND status = 'active'
    ORDER BY timer_number] *)
Definition select_active (u : Z) (db : Db) : list Timer :=
  order_by_timer_number (List.filter (active_of u) (timers db)).

Definition get_active_timers (fs : list bool) (u : Z) (db : Db) : list Timer * Db :=
  match connect (query (select_active u)) fs db with
  | (Ok r, db') => (r, db')
  | (Raised, db') => ([], db')
  end.

Definition number_le (a b : Timer) : Prop := timer_number a <= timer_number b.
Definition number_lt (a b : Timer) : Prop := timer_number a < timer_number b.

(** *** What the scans of a history return *)

(** The row identifiers that the scans of a history return, in order. *)
Fixpoint returned_ids (ops : list Op) (db : Db) : list Z :=
  match ops with
  | [] => []
  | o :: rest =>
    match o with
    | ScanExpired fs now => ids_of (fst (check_expired_timers fs now db))
    | _ => []
    end ++ returned_ids rest (step db o)
  end.

Definition is_add_user (o : Op) : bool :=
  match o with AddUser _ _ _ => true | _ => false end.


(** The columns no statement writes after the insert, and the two that
    only move one way. *)
Definition same_timer (t t' : Timer) : Prop :=
  timer_id t' = timer_id t /\ t_user_id t' = t_user_id t /\
  start_time t' = start_time t /\ end_time t' = end_time t /\
  duration t' = duration t /\ timer_number t' = timer_number t /\
  (status t <> active -> status t' <> active) /\
  (notified t = true -> notified t' = true).

(** A list of numbers that counts 1, 2, 3, ... *)
Definition counts_up (l : list Z) : Prop :=
  forall (i : nat) n, l !! i = Some n -> n = Z.of_nat i + 1.

(** Both primary keys hold. *)
Definition keys_ok (db : Db) : Prop :=
  StronglySorted Z.lt (List.map timer_id (timers db)) /\
  List.NoDup (List.map user_id (users db)).

End Store.

(** ** backup.py *)
Module Backup.

Definition bytes : Type := list Byte.byte.

(** A regular file: what it holds and its modification time. *)
Record File := {
  content : bytes;
  mtime : Z
}.

Inductive Level := INFO | ERROR.

(** The file system, keyed by path, and the records handed to the logger. *)
Record World := {
  files : gmap string File;
  log : list (Level * string)
}.

Definition IO (A : Type) : Type := M World A.

Definition set_files (fs : gmap string File) (w : World) : World :=
  {| files := fs; log := log w |}.

Definition logger (l : Level) (msg : string) : IO unit :=
  fun w => (Ok tt, {| files := files w; log := log w ++ [(l, msg)] |}).

(** [shutil.copy2]: contents and metadata; raises on a missing source
    ([FileNotFoundError]) and on source and destination being one file
    ([SameFileError]). *)
Definition copy2 (src dst : string) : IO unit :=
  fun w =>
    if String.eqb src dst then (Raised, w)
    else match files w !! src with
         | None => (Raised, w)
         | Some f => (Ok tt, set_files (<[dst := f]> (files w)) w)
         end.

(** [Path.unlink]: raises on a missing file. *)
Definition unlink (p : string) : IO unit :=
  fun w =>
    match files w !! p with
    | None => (Raised, w)
    | Some _ => (Ok tt, set_files (delete p (files w)) w)
    end.

(** The age in whole days that [timedelta.days] reports: the floor of the
    difference, also when it is negative. *)
Definition days (delta : Z) : Z := delta / day.

Fixpoint has_slash (s : string) : bool :=
  match s with
  | EmptyString => false
  | String c r => Ascii.eqb c "/"%char || has_slash r
  end.

Definition ends_with (suffix s : string) : bool :=
  let n := String.length s in
  let k := String.length suffix in
  (k <=? n)%nat && String.eqb (String.substring (n - k) k s) suffix.

(** A file name that the pattern [backup_*.db] matches. *)
Definition name_matches (name : string) : bool :=
  String.prefix "backup_" name && ends_with ".db" name
  && (10 <=? String.length name)%nat && negb (has_slash name).

Fixpoint for_each {A} (l : list A) (body : A -> IO unit) : IO unit :=
  match l with
  | [] => ret tt
  | x :: r => body x ;;; for_each r body
  end.

Section DatabaseBackup.

(** The fields of the object. *)
Variable db_path : string.
Variable backup_dir : string.

(** What SQLite answers to [PRAGMA integrity_check] on a file with these
    contents: the first column of the first row, or an exception when the
    file is not a database at all. *)
Variable integrity_check : bytes -> result string.

(** The contents [VACUUM INTO] writes for a database with these contents. *)
Variable vacuum : bytes -> bytes.

(** [strftime("%Y%m%d_%H%M%S")] of a point in time. *)
Variable strftime : Z -> string.

(** Opening the database at [p] and running the first statement on it:
    SQLite creates an empty database file when there is none. *)
Definition sqlite_open (p : string) (now : Z) : IO bytes :=
  fun w =>
    match files w !! p with
    | Some f => (Ok (content f), w)
    | None => (Ok [], set_files (<[p := {| content := []; mtime := now |}]> (files w)) w)
    end.

Definition pragma_integrity_check (p : string) (now : Z) : IO string :=
  c <- sqlite_open p now ;;
  match integrity_check c with
  | Ok r => ret r
  | Raised => raise
  end.

(** [VACUUM INTO ?]: the target must not exist, or be empty. *)
Definition vacuum_into (target : string) (now : Z) : IO unit :=
  c <- sqlite_open db_path now ;;
  fun w =>
    match files w !! target with
    | Some {| content := _ :: _ |} => (Raised, w)
    | _ => (Ok tt, set_files (<[target := {| content := vacuum c; mtime := now |}]> (files w)) w)
    end.

Definition backup_path_at (now : Z) : string :=
  backup_dir +:+ "/" +:+ "backup_" +:+ strftime now +:+ ".db".

(** A total function of the world: the outermost [except] catches all. *)
Definition total (m : IO bool) (w : World) : bool * World :=
  match m w with
  | (Ok b, w') => (b, w')
  | (Raised, w') => (false, w')
  end.

Definition create_backup (now : Z) : World -> bool * World :=
  total
    (try_except
       (let backup_path := backup_path_at now in
        r <- pragma_integrity_check db_path now ;;
        if negb (String.eqb r "ok") then
          logger ERROR "Database integrity check failed" ;;; ret false
        else
          vacuum_into backup_path now ;;;
          logger INFO "Backup created successfully" ;;;
          ret true)
       (logger ERROR "Backup creation failed" ;;; ret false)).

(** [self.backup_dir.glob("backup_*.db")]: the paths of the entries of
    the directory whose name matches. *)
Definition glob_match (p : string) : bool :=
  let dir := backup_dir +:+ "/" in
  String.prefix dir p
  && name_matches (String.substring (String.length dir)
                                    (String.length p - String.length dir) p).

Definition glob (w : World) : list string :=
  List.map fst (List.filter (fun e => glob_match (fst e)) (map_to_list (files w))).

Definition stat (p : string) : IO File :=
  fun w => match files w !! p with
           | Some f => (Ok f, w)
           | None => (Raised, w)
           end.

(** [now] is [datetime.now()]. *)
Definition cleanup_old_backups (keep_days now : Z) (w : World) : World :=
  snd (try_except
         (for_each (glob w)
            (fun backup_file =>
               f <- stat backup_file ;;
               if keep_days <? days (now - mtime f) then
                 unlink backup_file ;;;
                 logger INFO "Deleted old backup"
               else ret tt))
         (logger ERROR "Backup cleanup failed")
         w).

Definition temp_of (p : string) : string := p +:+ ".temp".

Definition restore_from_backup (backup_path : string) (now : Z) : World -> bool * World :=
  total
    (try_except
       (let temp_backup := temp_of db_path in
        copy2 db_path temp_backup ;;;
        try_except
          (copy2 backup_path db_path ;;;
           r <- pragma_integrity_check db_path now ;;
           (if negb (String.eqb r "ok") then raise else ret tt) ;;;
           unlink temp_backup ;;;
           logger INFO "Database restored successfully" ;;;
           ret true)
          (copy2 temp_backup db_path ;;;
           unlink temp_backup ;;;
           raise))
       (logger ERROR "Database restoration failed" ;;; ret false)).

(** The store at [db_path] passes the integrity check. *)
Definition live_ok (w : World) : Prop :=
  exists f, files w !! db_path = Some f /\ integrity_check (content f) = Ok "ok"%string.

(** The last record of the log is an error. *)
Definition reported (w : World) : Prop :=
  exists msg, last (log w) = Some (ERROR, msg).

(** *** The latest snapshot *)

(** [max(items, key=...)] after the first item: a later item replaces the
    best one only when its key is strictly greater. *)
Fixpoint max_by_mtime (best : string) (best_key : Z) (rest : list string) : IO string :=
  match rest with
  | [] => ret best
  | p :: r =>
    f <- stat p ;;
    if best_key <? mtime f then max_by_mtime p (mtime f) r
    else max_by_mtime best best_key r
  end.

Definition get_latest_backup (w : World) : option string * World :=
  match try_except
          (match glob w with
           | [] => ret None
           | p :: rest =>
             f <- stat p ;;
             best <- max_by_mtime p (mtime f) rest ;;
             ret (Some best)
           end)
          (logger ERROR "Failed to get latest backup" ;;; ret None)
          w with
  | (Ok r, w') => (r, w')
  | (Raised, w') => (None, w')
  end.

(** *** database.py, on the file: the integrity check and the optimizer *)

Definition check_database_integrity (now : Z) : World -> bool * World :=
  total
    (try_except
       (r <- pragma_integrity_check db_path now ;;
        if negb (String.eqb r "ok") then
          logger ERROR "Database integrity check failed" ;;; ret false
        else ret true)
       (logger ERROR "Database integrity check error" ;;; ret false)).

(** What [PRAGMA optimize] followed by [VACUUM] leaves in a file with
    these contents, or an exception. *)
Variable optimize : bytes -> result bytes.

Definition optimize_database (now : Z) (w : World) : World :=
  snd (try_except
         (c <- sqlite_open db_path now ;;
          match optimize c with
          | Ok c' =>
            (fun w0 => (Ok tt, set_files (<[db_path := {| content := c'; mtime := now |}]>
                                            (files w0)) w0)) ;;;
            logger INFO "Database optimization completed"
          | Raised => raise
          end)
         (logger ERROR "Database optimization error")
         w).

(** *** main.py: one pass of the body of [maintenance_task]

    The arguments [t_check] to [t_optimize] are the clock readings of the
    five calls, in order. *)
Definition maintenance_pass (keep_days t_check t_restore t_backup t_cleanup t_optimize : Z)
           (w : World) : World :=
  let '(sound, w1) := check_database_integrity t_check w in
  let w2 :=
    if sound then w1
    else
      let w1 := snd (logger ERROR "Database integrity check failed" w1) in
      let '(latest_backup, w1) := get_latest_backup w1 in
      match latest_backup with
      | Some p =>
        let '(restored, w1) := restore_from_backup p t_restore w1 in
        if restored then snd (logger INFO "Database restored from backup" w1)
        else snd (logger ERROR "Failed to restore database from backup" w1)
      | None => w1
      end in
  let '(made, w3) := create_backup t_backup w2 in
  let w4 := if made then cleanup_old_backups keep_days t_cleanup w3 else w3 in
  optimize_database t_optimize w4.

End DatabaseBackup.

(** *** A small file system for the examples

    [sample_check] accepts an empty file and a file that starts with the
    letter S, reports damage for one that starts with X, and raises on
    anything else, which is not a database. *)

Definition sample_check (c : bytes) : result string :=
  match c with
  | [] => Ok "ok"%string
  | Byte.x53 :: _ => Ok "ok"%string
  | Byte.x58 :: _ => Ok "*** in database main ***"%string
  | _ => Raised
  end.

Definition sample_world : World :=
  {| files :=
       <["timer_bot.db"%string := {| content := [Byte.x53; Byte.x01]; mtime := 9 * day |}]>
       (<["backups/backup_a.db"%string := {| content := [Byte.x58]; mtime := 0 |}]>
       (<["backups/backup_b.db"%string := {| content := [Byte.x53]; mtime := 8 * day |}]>
        ∅));
     log := [] |}.

Definition damaged_world : World :=
  {| files := <["timer_bot.db"%string := {| content := [Byte.x58]; mtime := 9 * day |}]> ∅;
     log := [] |}.


Definition stale_world : World :=
  {| files :=
       <["timer_bot.db"%string := {| content := [Byte.x58]; mtime := 9 * day |}]>
       (<["backups/backup_a.db"%string := {| content := [Byte.x58]; mtime := 8 * day |}]>
       (<["backups/backup_b.db"%string := {| content := [Byte.x53]; mtime := 0 |}]>
        ∅));
     log := [] |}.

End Backup.

(** ** main.py: the command handlers *)
Module Main.
Import Store.

(** What a handler answers.  The texts are fixed; a reply is named by its
    case and carries the values the text interpolates. *)
Inductive Reply :=
| Greeting                             (* the help text of /start *)
| BadFormat                            (* wrong number of words *)
| NotAnInteger                         (* the argument is not an integer *)
| OutOfRange (lo hi : Z)               (* duration outside the configured range *)
| LimitReached (max_timers : Z)        (* [add_timer] returned [None] *)
| TimerSet (end_time duration : Z)     (* the timer was stored *)
| Deleted (timer_number : Z)           (* [delete_timer] returned [True] *)
| NotFound (timer_number : Z).         (* [delete_timer] returned [False] *)



Section Handlers.

(** [message.text.split()] and [int(s)], with [None] for [ValueError]. *)
Variable split : string -> list string.
Variable int : string -> option Z.

Variable config : Conf.Config.



Definition cmd_delete (fs : list bool) (user_id : Z) (text : string) (db : Db)
  : Reply * Db :=
  match split text with
  | [_; arg] =>
    match int arg with
    | None => (NotAnInteger, db)
    | Some timer_number =>
      match delete_timer fs user_id timer_number db with
      | (true, db') => (Deleted timer_number, db')
      | (false, db') => (NotFound timer_number, db')
      end
    end
  | _ => (BadFormat, db)
  end.

End Handlers.

End Main.

(** * Properties of the store *)
Module StoreFacts.
Import Store.

(** ** What a call can do under any fault plan *)

Ltac run_sql :=
  cbv [connect query execute execute_returning commit bind call ret raise];
  cbn [faults working committed fst snd List.tl].

Ltac next_fault fs :=
  let b := fresh "b" in
  destruct fs as [|b fs]; [|destruct b].

Lemma add_timer_cases fs u d now db :
  add_timer fs u d now db = (None, db) \/
  (count_active u db < 3 /\
   add_timer fs u d now db = (Some (next_rowid db), add_timer_tx u d now db)).
Proof.
  unfold add_timer, add_timer_tx.
  destruct (3 <=? count_active u db) eqn:Hc.
  - left. do 4 (next_fault fs; run_sql; rewrite ?Hc; try reflexivity).
  - apply Z.leb_gt in Hc.
    do 7 (next_fault fs; run_sql; rewrite ?(proj2 (Z.leb_gt _ _) Hc);
          try (left; reflexivity); try (right; split; [lia | reflexivity])).
Qed.

Lemma delete_timer_cases fs u n db :
  delete_timer fs u n db = (false, db) \/
  delete_timer fs u n db = (true, delete_timer_tx u n db).
Proof.
  unfold delete_timer, delete_timer_tx.
  do 4 (next_fault fs; run_sql; try (left; reflexivity); try (right; reflexivity)).
Qed.

Lemma add_user_cases fs u name db :
  add_user fs u name db = (false, db) \/
  add_user fs u name db = (true, insert_user u name db).
Proof.
  unfold add_user.
  do 3 (next_fault fs; run_sql; try (left; reflexivity); try (right; reflexivity)).
Qed.

Lemma check_expired_cases fs now db :
  check_expired_timers fs now db = ([], db) \/
  (select_expired now db <> [] /\
   check_expired_timers fs now db = (select_expired now db, check_expired_tx now db)).
Proof.
  unfold check_expired_timers, check_expired_tx.
  destruct (select_expired now db) as [|row rows] eqn:Hs.
  - left. do 4 (next_fault fs; run_sql; rewrite ?Hs; try reflexivity).
  - do 7 (next_fault fs; run_sql; rewrite ?Hs; run_sql;
          try (left; reflexivity); try (right; split; [discriminate | reflexivity])).
Qed.

(** ** Histories *)

Lemma step_publishes db o : publishes db o (step db o).
Proof.
  destruct o as [fs u name|fs u d now|fs u n|fs now]; cbn [step].
  - destruct (add_user_cases fs u name db) as [-> | ->]; constructor.
  - destruct (add_timer_cases fs u d now db) as [-> | [Hlt ->]];
      [constructor | now constructor].
  - destruct (delete_timer_cases fs u n db) as [-> | ->]; constructor.
  - destruct (check_expired_cases fs now db) as [-> | [_ ->]]; constructor.
Qed.

Section Invariant.
Variable P : Db -> Prop.
Hypothesis P_user : forall db u name, P db -> P (insert_user u name db).
Hypothesis P_timer : forall db u d now,
    P db -> count_active u db < 3 -> P (add_timer_tx u d now db).
Hypothesis P_delete : forall db u n, P db -> P (delete_timer_tx u n db).
Hypothesis P_scan : forall db now, P db -> P (check_expired_tx now db).

Lemma step_invariant db o : P db -> P (step db o).
Proof.
  intros HP. destruct (step_publishes db o); auto.
Qed.

Lemma run_invariant ops : forall db, P db -> P (run ops db).
Proof.
  induction ops as [|o ops IH]; intros db HP; cbn [run List.fold_left]; [exact HP|].
  apply IH, step_invariant, HP.
Qed.
End Invariant.

(** ** Counting active timers *)

Lemma count_active_ext u db db' :
  timers db = timers db' -> count_active u db = count_active u db'.
Proof. unfold count_active. now intros ->. Qed.

Lemma timers_recount_user u db : timers (recount_user u db) = timers db.
Proof. reflexivity. Qed.

Lemma timers_recount_all db : timers (recount_all db) = timers db.
Proof. reflexivity. Qed.

Lemma timers_insert_user u name db : timers (insert_user u name db) = timers db.
Proof. unfold insert_user. now destruct (List.existsb _ _). Qed.

Lemma count_active_insert u u' a b d db :
  count_active u (insert_timer u' a b d db)
  = count_active u db + (if u' =? u then 1 else 0).
Proof.
  unfold count_active, insert_timer; cbn [timers].
  rewrite List.filter_app, List.length_app.
  destruct (u' =? u) eqn:E; unfold active_of; cbn; rewrite E; cbn; lia.
Qed.

(** An [UPDATE] that activates no row does not raise the count. *)
Lemma count_active_map_le u (f : Timer -> Timer) l :
  (forall t, active_of u (f t) = true -> active_of u t = true) ->
  (length (List.filter (active_of u) (List.map f l))
   <= length (List.filter (active_of u) l))%nat.
Proof.
  intros Hf. induction l as [|t l IH]; cbn [List.map List.filter]; [lia|].
  destruct (active_of u (f t)) eqn:Hft.
  - rewrite (Hf t Hft). cbn [length]. lia.
  - destruct (active_of u t); cbn [length]; lia.
Qed.

Lemma count_active_cancel u u' n db :
  count_active u (cancel_matching u' n db) <= count_active u db.
Proof.
  unfold count_active, cancel_matching; cbn [timers].
  apply inj_le, count_active_map_le. intros t.
  destruct (active_of u' t && (timer_number t =? n)); [|trivial].
  unfold active_of; cbn. rewrite andb_false_r. discriminate.
Qed.

Lemma count_active_complete u ids db :
  count_active u (complete_ids ids db) <= count_active u db.
Proof.
  unfold count_active, complete_ids; cbn [timers].
  apply inj_le, count_active_map_le. intros t.
  destruct (mem (timer_id t) ids); [|trivial].
  unfold active_of; cbn. rewrite andb_false_r. discriminate.
Qed.

Lemma count_active_step_bound u db o :
  count_active u db <= 3 -> count_active u (step db o) <= 3.
Proof.
  intros Hb. destruct (step_publishes db o) as [o|fs u' name|fs u' d now Hlt|fs u' n|fs now].
  - exact Hb.
  - now rewrite (count_active_ext u _ db (timers_insert_user u' name db)).
  - unfold add_timer_tx. rewrite (count_active_ext u _ _ (timers_recount_user _ _)).
    rewrite count_active_insert. destruct (u' =? u) eqn:E; [|lia].
    apply Z.eqb_eq in E. subst u'. lia.
  - unfold delete_timer_tx. rewrite (count_active_ext u _ _ (timers_recount_user _ _)).
    pose proof (count_active_cancel u u' n db). lia.
  - unfold check_expired_tx. rewrite (count_active_ext u _ _ (timers_recount_all _)).
    pose proof (count_active_complete u (ids_of (select_expired now db)) db). lia.
Qed.

Lemma count_active_run_bound u ops : forall db,
  count_active u db <= 3 -> count_active u (run ops db) <= 3.
Proof.
  induction ops as [|o ops IH]; intros db Hb; cbn [run List.fold_left]; [exact Hb|].
  apply IH, count_active_step_bound, Hb.
Qed.


(** ** The limit on active timers *)

Lemma add_timer_at_limit fs u d now db :
  3 <= count_active u db -> add_timer fs u d now db = (None, db).
Proof.
  intros Hc. destruct (add_timer_cases fs u d now db) as [H | [Hlt _]]; [exact H | lia].
Qed.

Lemma add_timer_fault fs u d now db :
  In true (firstn 7 fs) -> add_timer fs u d now db = (None, db).
Proof.
  intros Hin. unfold add_timer.
  destruct (3 <=? count_active u db) eqn:Hc;
    do 7 (next_fault fs; run_sql; rewrite ?Hc; try reflexivity;
          try (cbv [firstn In] in Hin; intuition discriminate)).
Qed.

Lemma add_timer_accepts u d now db :
  count_active u db < 3 ->
  add_timer [] u d now db = (Some (next_rowid db), add_timer_tx u d now db).
Proof.
  intros Hc. unfold add_timer, add_timer_tx. run_sql.
  now rewrite (proj2 (Z.leb_gt _ _) Hc).
Qed.

(** C1. With the configuration the program loads, whatever operations run
    on the store (so in particular along every sequence of [add_timer]
    calls for one user, under any faults), a user who starts within the
    limit never has more than [max_timers] active timers; and a call of
    [add_timer] made when the count has reached [max_timers] returns
    [None] and leaves the database as it was. *)
Theorem active_timers_never_exceed_limit :
  forall (env : option string) (cfg : Conf.Config) (u : Z) (db : Db),
    Conf.load_config env = Some cfg ->
    count_active u db <= Conf.max_timers cfg ->
    (forall ops, count_active u (run ops db) <= Conf.max_timers cfg) /\
    (forall fs d now, Conf.max_timers cfg <= count_active u db ->
                      add_timer fs u d now db = (None, db)).
Proof.
  intros env cfg u db Hload Hb.
  assert (Hmax : Conf.max_timers cfg = 3).
  { destruct env as [[|c tok]|]; cbn in Hload; inversion Hload; reflexivity. }
  rewrite Hmax in *. split.
  - intros ops. now apply count_active_run_bound.
  - intros fs d now Hc. now apply add_timer_at_limit.
Qed.

Lemma active_timers_never_exceed_limit_witness :
  count_active 7 (run [AddTimer [] 7 1 0; AddTimer [] 7 2 5; AddTimer [] 7 3 9;
                       AddTimer [] 7 4 12] create_tables) <= 3 /\
  add_timer [] 7 4 12
    (run [AddTimer [] 7 1 0; AddTimer [] 7 2 5; AddTimer [] 7 3 9] create_tables)
  = (None, run [AddTimer [] 7 1 0; AddTimer [] 7 2 5; AddTimer [] 7 3 9] create_tables).
Proof.
  split.
  - apply (active_timers_never_exceed_limit (Some "token"%string)
             (Conf.default_config "token") 7 create_tables).
    + reflexivity.
    + vm_compute. discriminate.
  - apply (active_timers_never_exceed_limit (Some "token"%string)
             (Conf.default_config "token") 7
             (run [AddTimer [] 7 1 0; AddTimer [] 7 2 5; AddTimer [] 7 3 9] create_tables)).
    + reflexivity.
    + vm_compute. discriminate.
    + vm_compute. discriminate.
Defined.

(** C10. [add_timer] answers [None], with the database untouched, both
    when the user has reached the limit and no call fails, and when the
    user is below the limit and some call of the operation raises: the
    two outcomes coincide. *)
Theorem add_timer_failure_indistinguishable :
  forall fs u d now db_full db_low,
    3 <= count_active u db_full ->
    count_active u db_low < 3 ->
    In true (firstn 7 fs) ->
    add_timer [] u d now db_full = (None, db_full) /\
    add_timer fs u d now db_low = (None, db_low) /\
    fst (add_timer [] u d now db_full) = fst (add_timer fs u d now db_low).
Proof.
  intros fs u d now db_full db_low Hfull Hlow Hin.
  rewrite (add_timer_at_limit [] u d now db_full Hfull).
  rewrite (add_timer_fault fs u d now db_low Hin).
  repeat split.
Qed.

Lemma add_timer_failure_indistinguishable_witness :
  fst (add_timer [] 7 1 0
         (run [AddTimer [] 7 1 0; AddTimer [] 7 2 5; AddTimer [] 7 3 9] create_tables))
  = fst (add_timer [false; false; false; false; true] 7 1 0 create_tables).
Proof.
  apply (add_timer_failure_indistinguishable
           [false; false; false; false; true] 7 1 0
           (run [AddTimer [] 7 1 0; AddTimer [] 7 2 5; AddTimer [] 7 3 9] create_tables)
           create_tables).
  - vm_compute. discriminate.
  - vm_compute. reflexivity.
  - simpl. tauto.
Defined.

(** C7 (the code departs from it). The limit [add_timer] enforces is the
    literal 3, whatever [max_timers] the configuration holds: with
    [max_timers = 5] a fourth timer is refused at three active ones, and
    with [max_timers = 2] a third timer is accepted at two active ones. *)
Theorem add_timer_ignores_configured_limit :
  let cfg5 := {| Conf.bot_token := "token"; Conf.max_timers := 5;
                 Conf.max_duration := 168; Conf.min_duration := 1;
                 Conf.backup_interval := 86400; Conf.maintenance_interval := 43200;
                 Conf.backup_keep_days := 7; Conf.check_interval := 60 |} in
  let cfg2 := {| Conf.bot_token := "token"; Conf.max_timers := 2;
                 Conf.max_duration := 168; Conf.min_duration := 1;
                 Conf.backup_interval := 86400; Conf.maintenance_interval := 43200;
                 Conf.backup_keep_days := 7; Conf.check_interval := 60 |} in
  let db2 := run [AddTimer [] 7 1 0; AddTimer [] 7 2 5] create_tables in
  let db3 := run [AddTimer [] 7 1 0; AddTimer [] 7 2 5; AddTimer [] 7 3 9] create_tables in
  (count_active 7 db3 = 3 /\ count_active 7 db3 < Conf.max_timers cfg5 /\
   add_timer [] 7 4 12 db3 = (None, db3)) /\
  (count_active 7 db2 = 2 /\ Conf.max_timers cfg2 <= count_active 7 db2 /\
   fst (add_timer [] 7 3 9 db2) = Some 3 /\
   count_active 7 (snd (add_timer [] 7 3 9 db2)) = 3).
Proof. vm_compute. repeat split; discriminate. Qed.

(** C5 (the code departs from it). [delete_timer] answers [True] whenever
    no call raises, also when no row matched and nothing was cancelled. *)
Theorem delete_timer_true_without_match :
  let db := run [AddUser [] 7 "ann"; AddTimer [] 7 1 0] create_tables in
  delete_timer [] 7 99 db = (true, db) /\
  delete_timer [] 7 1 create_tables = (true, create_tables).
Proof. vm_compute. split; reflexivity. Qed.

(** C2 (the code departs from it). A user row created after the user's
    first timer starts with [active_timers = 0] and is not recounted by a
    later committed [add_timer] of another user. *)
Theorem active_timers_stale_for_late_user :
  let db := run [AddTimer [] 7 1 0; AddUser [] 7 "ann"; AddTimer [] 8 1 0] create_tables in
  users db = [ {| user_id := 7; username := "ann"; active_timers := 0 |} ] /\
  count_active 7 db = 1 /\
  counts_agreeb db = false.
Proof. vm_compute. repeat split. Qed.


(** ** Row identifiers and timer numbers *)

Lemma sql_max_spec l m :
  sql_max l = Some m -> In m l /\ Forall (fun x => x <= m) l.
Proof.
  revert m. induction l as [|x l IH]; intros m; cbn [sql_max]; [discriminate|].
  destruct (sql_max l) as [m'|] eqn:Hm.
  - intros [= <-]. destruct (IH m' eq_refl) as [Hin Hall]. split.
    + destruct (Z.max_spec x m') as [[_ ->] | [_ ->]]; [now right | now left].
    + constructor; [lia|]. eapply List.Forall_impl; [|exact Hall].
      cbn. intros a Ha. lia.
  - intros [= <-]. split; [now left|]. constructor; [lia|].
    destruct l as [|y l]; [constructor|].
    cbn [sql_max] in Hm. destruct (sql_max l); discriminate.
Qed.

Lemma sql_max_none l : sql_max l = None -> l = [].
Proof.
  destruct l as [|x l]; [reflexivity|]. cbn [sql_max].
  destruct (sql_max l); discriminate.
Qed.

Lemma sql_max_above l : Forall (fun x => x < coalesce (sql_max l) 0 + 1) l.
Proof.
  destruct (sql_max l) as [m|] eqn:Hm.
  - destruct (sql_max_spec l m Hm) as [_ Hall].
    eapply List.Forall_impl; [|exact Hall]. cbn. intros a Ha. lia.
  - rewrite (sql_max_none l Hm). constructor.
Qed.

Lemma timer_id_below_next_rowid t db :
  In t (timers db) -> timer_id t < next_rowid db.
Proof.
  intros Hin. unfold next_rowid.
  pose proof (sql_max_above (List.map timer_id (timers db))) as Hall.
  rewrite List.Forall_forall in Hall.
  specialize (Hall (timer_id t) (List.in_map timer_id _ _ Hin)). lia.
Qed.

Lemma sorted_snoc l x :
  StronglySorted Z.lt l -> Forall (fun n => n < x) l -> StronglySorted Z.lt (l ++ [x]).
Proof.
  induction 1 as [|a l Hs IH Ha]; intros Hx; cbn [app].
  - repeat constructor.
  - inversion Hx as [|? ? Hax Hlx]; subst. constructor; [now apply IH|].
    apply List.Forall_app. split; [exact Ha | now repeat constructor].
Qed.

Lemma numbers_of_insert u u' a b d db :
  numbers_of u (insert_timer u' a b d db)
  = numbers_of u db ++ (if u' =? u then [next_timer_number u' db] else []).
Proof.
  unfold numbers_of, insert_timer; cbn [timers].
  rewrite List.filter_app, List.map_app. cbn.
  now destruct (u' =? u).
Qed.

(** An [UPDATE] of table [timers] that leaves a column alone. *)
Lemma map_column {A} (col : Timer -> A) (f : Timer -> Timer) l :
  (forall t, col (f t) = col t) -> List.map col (List.map f l) = List.map col l.
Proof.
  intros Hf. rewrite List.map_map. apply List.map_ext. exact Hf.
Qed.

Lemma numbers_of_update u (f : Timer -> Timer) db db' :
  timers db' = List.map f (timers db) ->
  (forall t, t_user_id (f t) = t_user_id t) ->
  (forall t, timer_number (f t) = timer_number t) ->
  numbers_of u db' = numbers_of u db.
Proof.
  intros Ht Hu Hn. unfold numbers_of. rewrite Ht. clear Ht.
  induction (timers db) as [|t l IH]; [reflexivity|].
  cbn [List.map List.filter]. rewrite Hu.
  destruct (t_user_id t =? u); cbn [List.map]; now rewrite ?Hn, IH.
Qed.

Lemma cancel_keeps t u n :
  let t' := if active_of u t && (timer_number t =? n)
            then set_status cancelled (notified t) t else t in
  timer_id t' = timer_id t /\ t_user_id t' = t_user_id t /\
  timer_number t' = timer_number t.
Proof. cbn. now destruct (active_of u t && (timer_number t =? n)). Qed.

Lemma complete_keeps t ids :
  let t' := if mem (timer_id t) ids then set_status completed true t else t in
  timer_id t' = timer_id t /\ t_user_id t' = t_user_id t /\
  timer_number t' = timer_number t.
Proof. cbn. now destruct (mem (timer_id t) ids). Qed.

Lemma numbers_of_users u db db' :
  timers db' = timers db -> numbers_of u db' = numbers_of u db.
Proof. unfold numbers_of. now intros ->. Qed.

Lemma numbers_of_delete u u' n db :
  numbers_of u (delete_timer_tx u' n db) = numbers_of u db.
Proof.
  apply (numbers_of_update u
           (fun t => if active_of u' t && (timer_number t =? n)
                     then set_status cancelled (notified t) t else t));
    [reflexivity | intros t; apply (cancel_keeps t u' n) ..].
Qed.

Lemma numbers_of_scan u now db :
  numbers_of u (check_expired_tx now db) = numbers_of u db.
Proof.
  apply (numbers_of_update u
           (fun t => if mem (timer_id t) (ids_of (select_expired now db))
                     then set_status completed true t else t));
    [reflexivity | intros t; apply (complete_keeps t) ..].
Qed.

Lemma numbers_of_add u u' d now db :
  numbers_of u (add_timer_tx u' d now db)
  = numbers_of u db ++ (if u' =? u then [next_timer_number u' db] else []).
Proof.
  unfold add_timer_tx.
  rewrite (numbers_of_users u _ _ (timers_recount_user u' _)).
  apply numbers_of_insert.
Qed.

Lemma numbers_sorted_run ops u :
  StronglySorted Z.lt (numbers_of u (run ops create_tables)).
Proof.
  apply (run_invariant (fun db => StronglySorted Z.lt (numbers_of u db))).
  - intros db u' name H.
    now rewrite (numbers_of_users u db _ (timers_insert_user u' name db)).
  - intros db u' d now H _. rewrite numbers_of_add.
    destruct (u' =? u) eqn:E; [|now rewrite List.app_nil_r].
    apply Z.eqb_eq in E. subst u'. apply sorted_snoc; [exact H|].
    apply sql_max_above.
  - intros db u' n H. now rewrite numbers_of_delete.
  - intros db now H. now rewrite numbers_of_scan.
  - constructor.
Qed.

Lemma ids_update (f : Timer -> Timer) db db' :
  timers db' = List.map f (timers db) ->
  (forall t, timer_id (f t) = timer_id t) ->
  List.map timer_id (timers db') = List.map timer_id (timers db).
Proof. intros -> Hf. now apply map_column. Qed.

Lemma ids_delete u n db :
  List.map timer_id (timers (delete_timer_tx u n db)) = List.map timer_id (timers db).
Proof.
  apply (ids_update (fun t => if active_of u t && (timer_number t =? n)
                              then set_status cancelled (notified t) t else t));
    [reflexivity | intros t; apply (cancel_keeps t u n)].
Qed.

Lemma ids_scan now db :
  List.map timer_id (timers (check_expired_tx now db)) = List.map timer_id (timers db).
Proof.
  apply (ids_update (fun t => if mem (timer_id t) (ids_of (select_expired now db))
                              then set_status completed true t else t));
    [reflexivity | intros t; apply (complete_keeps t)].
Qed.

Lemma ids_sorted_run ops :
  StronglySorted Z.lt (List.map timer_id (timers (run ops create_tables))).
Proof.
  apply (run_invariant (fun db => StronglySorted Z.lt (List.map timer_id (timers db)))).
  - intros db u name H. now rewrite timers_insert_user.
  - intros db u d now H _. unfold add_timer_tx, insert_timer; cbn [timers recount_user].
    rewrite List.map_app. apply sorted_snoc; [exact H|].
    apply List.Forall_forall. intros i Hi. apply List.in_map_iff in Hi.
    destruct Hi as [t [<- Ht]]. now apply timer_id_below_next_rowid.
  - intros db u n H. now rewrite ids_delete.
  - intros db now H. now rewrite ids_scan.
  - constructor.
Qed.

Lemma add_timer_some fs u d now db id db' :
  add_timer fs u d now db = (Some id, db') ->
  id = next_rowid db /\ db' = add_timer_tx u d now db.
Proof.
  destruct (add_timer_cases fs u d now db) as [-> | [_ ->]]; [discriminate|].
  now intros [= <- <-].
Qed.

(** C4. The number of a new timer is one more than the largest number
    among all the user's rows, whatever their status, and 1 when the user
    has none; so it exceeds every number the user ever had.  In every
    store that a history of operations builds from the empty one, each
    user's timer numbers, read in order of creation, strictly increase,
    and so do the row identifiers. *)
Theorem timer_numbers_strictly_increase :
  (forall ops u,
      StronglySorted Z.lt (numbers_of u (run ops create_tables)) /\
      StronglySorted Z.lt (List.map timer_id (timers (run ops create_tables)))) /\
  (forall fs u d now db id db',
      add_timer fs u d now db = (Some id, db') ->
      exists row,
        timers db' = timers db ++ [row] /\
        timer_id row = id /\ t_user_id row = u /\
        status row = active /\ notified row = false /\
        timer_number row = coalesce (sql_max (numbers_of u db)) 0 + 1 /\
        (numbers_of u db = [] -> timer_number row = 1) /\
        (numbers_of u db <> [] -> In (timer_number row - 1) (numbers_of u db)) /\
        Forall (fun n => n < timer_number row) (numbers_of u db)).
Proof.
  split.
  - intros ops u. split; [apply numbers_sorted_run | apply ids_sorted_run].
  - intros fs u d now db id db' Hadd.
    destruct (add_timer_some fs u d now db id db' Hadd) as [-> ->].
    eexists. split; [reflexivity|]. cbn [timer_id t_user_id status notified timer_number].
    unfold next_timer_number. repeat split.
    + now intros ->.
    + intros Hne. destruct (sql_max (numbers_of u db)) as [m|] eqn:Hm.
      * cbn [coalesce]. replace (m + 1 - 1) with m by lia.
        apply (sql_max_spec _ _ Hm).
      * now apply sql_max_none in Hm.
    + apply sql_max_above.
Qed.

Lemma timer_numbers_strictly_increase_witness :
  exists row,
    timers (snd (add_timer [] 7 5 20
                   (run [AddTimer [] 7 1 0; AddTimer [] 7 2 5; DeleteTimer [] 7 2]
                        create_tables)))
    = timers (run [AddTimer [] 7 1 0; AddTimer [] 7 2 5; DeleteTimer [] 7 2] create_tables)
      ++ [row] /\
    timer_number row = 3.
Proof.
  destruct (proj2 timer_numbers_strictly_increase [] 7 5 20
              (run [AddTimer [] 7 1 0; AddTimer [] 7 2 5; DeleteTimer [] 7 2] create_tables)
              3
              (snd (add_timer [] 7 5 20
                      (run [AddTimer [] 7 1 0; AddTimer [] 7 2 5; DeleteTimer [] 7 2]
                           create_tables)))
              eq_refl)
    as [row [Ht [_ [_ [_ [_ [Hn _]]]]]]].
  exists row. split; [exact Ht | exact Hn].
Defined.


(** ** Consumption of expired timers *)

Lemma mem_In x l : mem x l = true <-> In x l.
Proof.
  unfold mem. rewrite List.existsb_exists. split.
  - intros [y [Hy E]]. apply Z.eqb_eq in E. now subst.
  - intros H. exists x. split; [exact H | apply Z.eqb_refl].
Qed.

Lemma select_expired_In now db row :
  In row (select_expired now db) ->
  In (fst row) (timers db) /\ expired_at now (fst row) = true.
Proof.
  unfold select_expired. rewrite List.in_flat_map.
  intros [t [Ht Hrow]]. apply List.filter_In in Ht.
  apply List.in_map_iff in Hrow. destruct Hrow as [r [<- _]]. exact Ht.
Qed.

Lemma expired_at_spec now t :
  expired_at now t = true ->
  status t = active /\ end_time t <= now /\ notified t = false.
Proof.
  unfold expired_at. rewrite !andb_true_iff, negb_true_iff, Z.leb_le.
  intros [[Hs Hle] Hn]. repeat split; [|exact Hle|exact Hn].
  now destruct (status t).
Qed.

Lemma select_expired_row now db t name :
  In (t, name) (select_expired now db) ->
  In t (timers db) /\ status t = active /\ end_time t <= now /\ notified t = false.
Proof.
  intros H. apply select_expired_In in H. cbn [fst] in H. destruct H as [Ht He].
  split; [exact Ht | now apply expired_at_spec].
Qed.

Lemma ids_of_In id rows :
  In id (ids_of rows) -> exists row, In row rows /\ timer_id (fst row) = id.
Proof.
  unfold ids_of. rewrite List.in_map_iff. intros [row [E H]]. now exists row.
Qed.

Lemma next_rowid_update db db' :
  List.map timer_id (timers db') = List.map timer_id (timers db) ->
  seq db' = seq db -> next_rowid db' = next_rowid db.
Proof. unfold next_rowid. now intros -> ->. Qed.

Lemma retired_not_selected id now db :
  retired id db -> ~ In id (ids_of (select_expired now db)).
Proof.
  intros [Hr _] Hin. apply ids_of_In in Hin. destruct Hin as [row [Hrow Hid]].
  apply select_expired_In in Hrow. destruct Hrow as [Ht He].
  apply expired_at_spec in He. destruct He as [Hs _].
  exact (Hr (fst row) Ht Hid Hs).
Qed.

Lemma scan_retires id now db :
  In id (ids_of (select_expired now db)) -> retired id (check_expired_tx now db).
Proof.
  intros Hin. split.
  - intros t' Ht' Hid. cbn [check_expired_tx recount_all complete_ids timers] in Ht'.
    apply List.in_map_iff in Ht'. destruct Ht' as [t [<- Ht]].
    destruct (mem (timer_id t) (ids_of (select_expired now db))) eqn:Hm.
    + discriminate.
    + exfalso. rewrite Hid in Hm. apply mem_In in Hin. congruence.
  - rewrite (next_rowid_update db _ (ids_scan now db) eq_refl).
    apply ids_of_In in Hin. destruct Hin as [row [Hrow <-]].
    apply timer_id_below_next_rowid. now apply select_expired_In in Hrow.
Qed.

Lemma retired_update id (f : Timer -> Timer) db db' :
  timers db' = List.map f (timers db) -> seq db' = seq db ->
  (forall t, timer_id (f t) = timer_id t) ->
  (forall t, status (f t) = active -> status t = active) ->
  retired id db -> retired id db'.
Proof.
  intros Ht Hs Hid Hst [Hr Hlt]. split.
  - intros t' Ht' E. rewrite Ht in Ht'. apply List.in_map_iff in Ht'.
    destruct Ht' as [t [<- Hin]]. rewrite Hid in E.
    intros Hact. exact (Hr t Hin E (Hst t Hact)).
  - rewrite (next_rowid_update db db'); [exact Hlt | | exact Hs].
    rewrite Ht. now apply map_column.
Qed.

Lemma retired_step id db o : retired id db -> retired id (step db o).
Proof.
  intros Hr. destruct (step_publishes db o) as [o|fs u name|fs u d now Hlt|fs u n|fs now].
  - exact Hr.
  - unfold insert_user. destruct (List.existsb _ _); [exact Hr|].
    destruct Hr as [Hr Hlt]. split; [exact Hr | exact Hlt].
  - destruct Hr as [Hr Hlt']. split.
    + intros t Ht E. cbn [add_timer_tx recount_user insert_timer timers] in Ht.
      apply List.in_app_iff in Ht. destruct Ht as [Ht | [<- | []]].
      * now apply Hr.
      * cbn [timer_id] in E. lia.
    + unfold next_rowid at 1. cbn [add_timer_tx recount_user insert_timer seq]. lia.
  - apply (retired_update id
             (fun t => if active_of u t && (timer_number t =? n)
                       then set_status cancelled (notified t) t else t) db);
      [reflexivity | reflexivity | intros t; apply (cancel_keeps t u n) | | exact Hr].
    intros t. destruct (active_of u t && (timer_number t =? n)); [discriminate | trivial].
  - apply (retired_update id
             (fun t => if mem (timer_id t) (ids_of (select_expired now db))
                       then set_status completed true t else t) db);
      [reflexivity | reflexivity | intros t; apply (complete_keeps t) | | exact Hr].
    intros t. destruct (mem _ _); [discriminate | trivial].
Qed.

Lemma retired_run id ops : forall db, retired id db -> retired id (run ops db).
Proof.
  induction ops as [|o ops IH]; intros db Hr; cbn [run List.fold_left]; [exact Hr|].
  apply IH, retired_step, Hr.
Qed.

Lemma scan_returns fs now db row :
  In row (fst (check_expired_timers fs now db)) ->
  check_expired_timers fs now db = (select_expired now db, check_expired_tx now db).
Proof.
  destruct (check_expired_cases fs now db) as [-> | [_ ->]]; [intros [] | reflexivity].
Qed.

(** C3. Take two scans, with any operations between them and any two
    times (so also the same or a later time for the second).  No row
    identifier is returned by both.  Every row a scan returns is a row of
    the table that was active, due and not yet notified; in the database
    the scan leaves, that row is completed and notified, and the rows whose
    identifier was not captured are as they were. *)
Theorem scan_expired_consumes_once :
  forall fs1 now1 fs2 now2 ops db,
    let r1 := check_expired_timers fs1 now1 db in
    let r2 := check_expired_timers fs2 now2 (run ops (snd r1)) in
    (forall id, In id (ids_of (fst r1)) -> ~ In id (ids_of (fst r2))) /\
    (forall t name, In (t, name) (fst r1) ->
       In t (timers db) /\ status t = active /\ end_time t <= now1 /\
       notified t = false /\
       In (set_status completed true t) (timers (snd r1))) /\
    (forall t, In t (timers db) -> ~ In (timer_id t) (ids_of (fst r1)) ->
       In t (timers (snd r1))) /\
    (forall t name, In (t, name) (fst r2) -> notified t = false).
Proof.
  intros fs1 now1 fs2 now2 ops db r1 r2. split; [|split; [|split]].
  - intros id Hin Hin2. subst r1 r2.
    destruct (ids_of_In _ _ Hin) as [row [Hrow _]].
    rewrite (scan_returns fs1 now1 db row Hrow) in *. cbn [fst snd] in *.
    destruct (ids_of_In _ _ Hin2) as [row2 [Hrow2 _]].
    rewrite (scan_returns _ _ _ row2 Hrow2) in Hin2. cbn [fst] in Hin2.
    revert Hin2. apply retired_not_selected, retired_run, scan_retires, Hin.
  - intros t name H. subst r1.
    rewrite (scan_returns fs1 now1 db _ H) in H |- *. cbn [fst snd] in *.
    destruct (select_expired_row _ _ _ _ H) as [Ht [Hs [He Hn]]].
    repeat split; try assumption.
    cbn [check_expired_tx recount_all complete_ids timers].
    apply List.in_map_iff. exists t. split; [|exact Ht].
    replace (mem (timer_id t) (ids_of (select_expired now1 db))) with true; [reflexivity|].
    symmetry. apply mem_In. unfold ids_of. apply List.in_map_iff.
    now exists (t, name).
  - intros t Ht Hnot. subst r1.
    destruct (check_expired_cases fs1 now1 db) as [E | [_ E]]; rewrite E in *;
      cbn [fst snd] in *; [exact Ht|].
    cbn [check_expired_tx recount_all complete_ids timers].
    apply List.in_map_iff. exists t. split; [|exact Ht].
    destruct (mem (timer_id t) (ids_of (select_expired now1 db))) eqn:Hm; [|reflexivity].
    apply mem_In in Hm. contradiction.
  - intros t name H. subst r2.
    rewrite (scan_returns _ _ _ _ H) in H. cbn [fst] in H.
    now apply select_expired_row in H.
Qed.

Lemma scan_expired_consumes_once_witness :
  ~ In 1 (ids_of (fst (check_expired_timers [] (3 * hour)
       (run [AddTimer [] 7 1 (2 * hour)]
          (snd (check_expired_timers [] (2 * hour)
             (run [AddUser [] 7 "ann"; AddTimer [] 7 1 0; AddTimer [] 7 5 0]
                  create_tables))))))).
Proof.
  apply (scan_expired_consumes_once [] (2 * hour) [] (3 * hour)
           [AddTimer [] 7 1 (2 * hour)]
           (run [AddUser [] 7 "ann"; AddTimer [] 7 1 0; AddTimer [] 7 5 0] create_tables)).
  vm_compute. left. reflexivity.
Defined.


(** ** The cache of active counts

    The three operations on timers keep [counts_agree]; what breaks it is
    a user row inserted when the user already owns active timers. *)

Lemma count_active_map_eq u (f : Timer -> Timer) l :
  (forall t, active_of u (f t) = active_of u t) ->
  length (List.filter (active_of u) (List.map f l))
  = length (List.filter (active_of u) l).
Proof.
  intros Hf. induction l as [|t l IH]; [reflexivity|].
  cbn [List.map List.filter]. rewrite Hf.
  destruct (active_of u t); cbn [length]; now rewrite IH.
Qed.

Lemma count_active_cancel_other u u' n db :
  u <> u' -> count_active u' (cancel_matching u n db) = count_active u' db.
Proof.
  intros Hne. unfold count_active, cancel_matching; cbn [timers].
  f_equal. apply count_active_map_eq. intros t.
  destruct (active_of u t && (timer_number t =? n)) eqn:E; [|reflexivity].
  apply andb_true_iff in E. destruct E as [E _].
  unfold active_of in *. cbn [set_status t_user_id status].
  apply andb_true_iff in E. destruct E as [E _]. apply Z.eqb_eq in E.
  now rewrite (proj2 (Z.eqb_neq (t_user_id t) u')) by congruence.
Qed.

Lemma counts_agree_recount_user u db :
  (forall r, In r (users db) -> user_id r <> u ->
             active_timers r = count_active (user_id r) db) ->
  counts_agree (recount_user u db).
Proof.
  intros H r' Hr'. cbn [recount_user users] in Hr'.
  apply List.in_map_iff in Hr'. destruct Hr' as [r [<- Hr]].
  rewrite (count_active_ext _ _ db (timers_recount_user u db)).
  destruct (user_id r =? u) eqn:E.
  - apply Z.eqb_eq in E. cbn [set_active_timers active_timers user_id]. now rewrite E.
  - apply Z.eqb_neq in E. now apply H.
Qed.

Lemma counts_agree_add_timer u d now db :
  counts_agree db -> counts_agree (add_timer_tx u d now db).
Proof.
  intros H. apply counts_agree_recount_user. intros r Hr Hne.
  rewrite count_active_insert.
  rewrite (proj2 (Z.eqb_neq u (user_id r))) by congruence.
  rewrite Z.add_0_r. now apply H.
Qed.

Lemma counts_agree_delete u n db :
  counts_agree db -> counts_agree (delete_timer_tx u n db).
Proof.
  intros H. apply counts_agree_recount_user. intros r Hr Hne.
  rewrite count_active_cancel_other by congruence. now apply H.
Qed.

Lemma counts_agree_scan now db : counts_agree (check_expired_tx now db).
Proof.
  intros r' Hr'. cbn [check_expired_tx recount_all users] in Hr'.
  apply List.in_map_iff in Hr'. destruct Hr' as [r [<- Hr]]. reflexivity.
Qed.

Lemma counts_agree_step db o :
  (forall fs u name, o <> AddUser fs u name) ->
  counts_agree db -> counts_agree (step db o).
Proof.
  intros Hop H. destruct (step_publishes db o) as [o|fs u name|fs u d now Hlt|fs u n|fs now].
  - exact H.
  - now destruct (Hop fs u name).
  - now apply counts_agree_add_timer.
  - now apply counts_agree_delete.
  - apply counts_agree_scan.
Qed.

Lemma counts_agreeb_spec db : counts_agreeb db = true <-> counts_agree db.
Proof.
  unfold counts_agreeb, counts_agree. rewrite List.forallb_forall.
  split; intros H r Hr; specialize (H r Hr); now apply Z.eqb_eq.
Qed.

(** What [delete_timer] does to the rows: a row is changed only when it
    is an active row of that user with that number, and then only its
    status, which becomes cancelled. *)
Lemma delete_timer_cancels_only_active u n db t' :
  In t' (timers (delete_timer_tx u n db)) ->
  exists t, In t (timers db) /\
    (t' = t \/
     (status t = active /\ t_user_id t = u /\ timer_number t = n /\
      t' = set_status cancelled (notified t) t)).
Proof.
  cbn [delete_timer_tx recount_user cancel_matching timers].
  intros H. apply List.in_map_iff in H. destruct H as [t [<- Ht]].
  exists t. split; [exact Ht|].
  destruct (active_of u t && (timer_number t =? n)) eqn:E; [right | now left].
  apply andb_true_iff in E. destruct E as [Ha En]. apply Z.eqb_eq in En.
  unfold active_of in Ha. apply andb_true_iff in Ha. destruct Ha as [Hu Hs].
  apply Z.eqb_eq in Hu. repeat split; try assumption. now destruct (status t).
Qed.

(** The scenario of the store's life cycle: three timers get the numbers
    1, 2, 3; a fourth is refused; after timer 2 is deleted the next timer
    gets number 4; a scan past the end of timer 1 returns exactly that
    timer and leaves two active timers, numbers 3 and 4. *)
Example lifecycle_scenario :
  let db3 := run [AddUser [] 7 "ann"; AddTimer [] 7 1 0; AddTimer [] 7 2 0;
                  AddTimer [] 7 3 0] create_tables in
  let db4 := run [DeleteTimer [] 7 2; AddTimer [] 7 5 10] db3 in
  let scan := check_expired_timers [] (hour + 5) db4 in
  numbers_of 7 db3 = [1; 2; 3] /\
  fst (add_timer [] 7 4 0 db3) = None /\
  numbers_of 7 db4 = [1; 2; 3; 4] /\
  List.map (fun row => timer_number (fst row)) (fst scan) = [1] /\
  List.map timer_number (List.filter (active_of 7) (timers (snd scan))) = [3; 4] /\
  List.map active_timers (users (snd scan)) = [2].
Proof. vm_compute. repeat split. Qed.

Lemma delete_timer_no_fault u n db :
  delete_timer [] u n db = (true, delete_timer_tx u n db).
Proof. reflexivity. Qed.

End StoreFacts.

(** * Properties of the backup manager *)
Module BackupFacts.
Import Backup.

Lemma temp_of_fresh p : temp_of p <> p.
Proof.
  unfold temp_of. induction p as [|c p IH]; cbn; [discriminate|].
  intros [= E]. exact (IH E).
Qed.

Ltac simp_fs :=
  repeat (progress cbn [files log fst snd] in *
          || rewrite lookup_insert_eq
          || (rewrite lookup_insert_ne by congruence)
          || rewrite lookup_delete_eq
          || (rewrite lookup_delete_ne by congruence)).

Section Restore.
Variable db_path : string.
Variable integrity_check : bytes -> result string.

Ltac failed_case :=
  split;
  [ split; [reflexivity | unfold reported; eexists; cbn [log]; now rewrite last_snoc]
  | intros; reflexivity ].

Ltac run_io :=
  cbv [restore_from_backup total try_except bind ret raise copy2 unlink logger
       pragma_integrity_check sqlite_open set_files];
  cbn [files log fst snd].

(** C6. [restore_from_backup] either succeeds, and then the live store
    passes the integrity check and the side file is gone, or it answers
    [False] after logging an error, and then the live store is the very
    file, contents and modification time, that it was before the call.
    A snapshot that fails the integrity check makes the call fail. *)
Theorem restore_is_atomic :
  forall backup_path now w,
    let r := restore_from_backup db_path integrity_check backup_path now w in
    (if fst r
     then live_ok db_path integrity_check (snd r) /\
          files (snd r) !! temp_of db_path = None
     else files (snd r) !! db_path = files w !! db_path /\ reported (snd r)) /\
    (forall f, files w !! backup_path = Some f ->
               integrity_check (content f) <> Ok "ok"%string ->
               backup_path <> temp_of db_path ->
               fst r = false).
Proof.
  intros backup_path now w r. subst r.
  pose proof (temp_of_fresh db_path) as Hfresh.
  run_io.
  destruct (String.eqb_spec db_path (temp_of db_path)) as [E|_]; [congruence|].
  destruct (files w !! db_path) as [f0|] eqn:Hlive.
  2:{ cbn. split.
      - split; [now rewrite Hlive|]. exists "Database restoration failed"%string.
        cbn [log]. now rewrite last_snoc.
      - reflexivity. }
  assert (Hne : db_path <> temp_of db_path) by congruence.
  destruct (String.eqb_spec (temp_of db_path) db_path) as [E|_]; [congruence|].
  destruct (String.eqb_spec backup_path db_path) as [Eb|Hb].
  - simp_fs. failed_case.
  - match goal with
    | |- context [?m !! backup_path] => destruct (m !! backup_path) as [f|] eqn:Hsnap
    end.
    2:{ simp_fs. failed_case. }
    simp_fs.
    destruct (integrity_check (content f)) as [answer|] eqn:Hcheck.
    2:{ simp_fs. failed_case. }
    destruct (String.eqb_spec answer "ok") as [->|Hans]; cbn [negb]; simp_fs.
    + split.
      * split; [|reflexivity]. exists f. now simp_fs.
      * intros f' Hf' Hbad Htemp. rewrite lookup_insert_ne in Hsnap by congruence.
        congruence.
    + failed_case.
Qed.
End Restore.
Section CreateBackup.
Variable db_path backup_dir : string.
Variable integrity_check : bytes -> result string.
Variable vacuum : bytes -> bytes.
Variable strftime : Z -> string.

Ltac run_backup :=
  cbv [create_backup total try_except bind ret raise logger vacuum_into
       pragma_integrity_check sqlite_open set_files];
  cbn [files log fst snd].

Ltac refused :=
  simp_fs;
  split; [intros _; reflexivity|];
  split; [discriminate|];
  intros _; split;
  [ unfold reported; eexists; cbn [log]; now rewrite last_snoc
  | intros p Hp; now simp_fs ].

(** C8. [create_backup] runs the integrity check on the live store
    first.  When the check does not answer ok the call returns [False];
    a call that returns [True] passed the check and wrote the snapshot;
    and every call that returns [False] logged an error and created no
    file beside the live store. *)
Theorem create_backup_checks_first :
  forall now w,
    let live := match files w !! db_path with Some f => content f | None => [] end in
    let r := create_backup db_path backup_dir integrity_check vacuum strftime now w in
    (integrity_check live <> Ok "ok"%string -> fst r = false) /\
    (fst r = true ->
       integrity_check live = Ok "ok"%string /\
       files (snd r) !! backup_path_at backup_dir strftime now
       = Some {| content := vacuum live; mtime := now |}) /\
    (fst r = false ->
       reported (snd r) /\
       forall p, p <> db_path -> files (snd r) !! p = files w !! p).
Proof.
  intros now w live r. subst live r. run_backup.
  destruct (files w !! db_path) as [f0|] eqn:Hlive; simp_fs.
  - destruct (integrity_check (content f0)) as [answer|] eqn:Hcheck. 2:{ refused. }
    destruct (String.eqb_spec answer "ok") as [->|Hans]; cbn [negb]; simp_fs.
    2:{ refused. }
    rewrite Hlive. simp_fs.
    destruct (files w !! backup_path_at backup_dir strftime now) as [[[|b c] m]|] eqn:Ht;
      simp_fs; try refused.
    all: split; [congruence|]; split; [intros _; split; [reflexivity|now simp_fs] | discriminate].
  - destruct (integrity_check []) as [answer|] eqn:Hcheck; [|refused].
    destruct (String.eqb_spec answer "ok") as [->|Hans]; cbn [negb]; simp_fs.
    2:{ refused. }
    match goal with
    | |- context [?m !! backup_path_at backup_dir strftime now] =>
      destruct (m !! backup_path_at backup_dir strftime now) as [[[|b c] m']|] eqn:Ht
    end; simp_fs; try refused.
    all: split; [congruence|]; split; [intros _; split; [reflexivity|now simp_fs] | discriminate].
Qed.

End CreateBackup.

Section Cleanup.
Variable backup_dir : string.
Variable keep_days now : Z.

(** The body of the loop of [cleanup_old_backups]. *)
Let examine (backup_file : string) : IO unit :=
  bind (stat backup_file) (fun f =>
    if keep_days <? days (now - mtime f) then
      bind (unlink backup_file) (fun _ => logger INFO "Deleted old backup")
    else ret tt).

Lemma for_each_examine l : forall w,
  NoDup l ->
  (forall p, p ∈ l -> is_Some (files w !! p)) ->
  exists w',
    for_each l examine w = (Ok tt, w') /\
    forall p,
      files w' !! p =
      match files w !! p with
      | Some f => if bool_decide (p ∈ l) && (keep_days <? days (now - mtime f))
                  then None else Some f
      | None => None
      end.
Proof.
  induction l as [|x l IH]; intros w Hnd Hex.
  - exists w. split; [reflexivity|]. intros p.
    destruct (files w !! p); [|reflexivity].
    rewrite bool_decide_eq_false_2; [reflexivity | apply not_elem_of_nil].
  - apply NoDup_cons in Hnd. destruct Hnd as [Hx Hnd'].
    destruct (Hex x (list_elem_of_here x l)) as [f Hf].
    assert (Hstep : exists w1,
               examine x w = (Ok tt, w1) /\
               files w1 = if keep_days <? days (now - mtime f)
                          then delete x (files w) else files w).
    { unfold examine, bind, stat, unlink, logger, ret, set_files. rewrite Hf.
      destruct (keep_days <? days (now - mtime f)); [rewrite Hf|]; eexists; split; reflexivity. }
    destruct Hstep as [w1 [Hrun Hw1]].
    destruct (IH w1 Hnd') as [w' [Hrest Hlook]].
    { intros p Hp. rewrite Hw1.
      assert (is_Some (files w !! p)) by (apply Hex; now right).
      destruct (keep_days <? days (now - mtime f)); [|assumption].
      rewrite lookup_delete_ne by (intros ->; contradiction). assumption. }
    exists w'. split.
    { cbn [for_each]. unfold bind at 1. now rewrite Hrun. }
    intros p. rewrite Hlook, Hw1. destruct (decide (p = x)) as [->|Hne].
    + rewrite (bool_decide_eq_false_2 (x ∈ l)) by exact Hx.
      rewrite (bool_decide_eq_true_2 (x ∈ x :: l)) by now left.
      rewrite Hf. cbn [andb].
      destruct (keep_days <? days (now - mtime f)); [now rewrite lookup_delete_eq | now rewrite Hf].
    + assert (Hiff : bool_decide (p ∈ x :: l) = bool_decide (p ∈ l)).
      { apply bool_decide_ext. rewrite elem_of_cons. tauto. }
      rewrite Hiff.
      destruct (keep_days <? days (now - mtime f)); [rewrite lookup_delete_ne by congruence|];
        reflexivity.
Qed.

Lemma NoDup_filter_fst {A B} (q : A * B -> bool) (l : list (A * B)) :
  NoDup (l.*1) -> NoDup (List.map fst (List.filter q l)).
Proof.
  induction l as [|e l IH]; cbn [List.map List.filter]; [trivial|].
  rewrite fmap_cons, NoDup_cons. intros [Hx Hnd].
  destruct (q e); [|now apply IH]. cbn [List.map]. apply NoDup_cons.
  split; [|now apply IH].
  intros Hin. apply Hx. apply list_elem_of_In, List.in_map_iff in Hin.
  destruct Hin as [e' [E He']]. apply List.filter_In in He'.
  apply list_elem_of_fmap. exists e'. split; [now symmetry|].
  now apply list_elem_of_In.
Qed.

Lemma glob_spec w p :
  p ∈ glob backup_dir w <-> glob_match backup_dir p = true /\ is_Some (files w !! p).
Proof.
  unfold glob. rewrite list_elem_of_In, List.in_map_iff. split.
  - intros [[p' f] [E He]]. cbn in E. subst p'. apply List.filter_In in He.
    destruct He as [He Hm]. cbn in Hm. split; [exact Hm|].
    apply list_elem_of_In, elem_of_map_to_list in He. now exists f.
  - intros [Hm [f Hf]]. exists (p, f). split; [reflexivity|].
    apply List.filter_In. split; [|exact Hm].
    now apply list_elem_of_In, elem_of_map_to_list.
Qed.

Lemma days_exceeds delta :
  (keep_days <? days delta) = true <-> (keep_days + 1) * day <= delta.
Proof.
  unfold days. rewrite Z.ltb_lt.
  assert (Hday : 0 < day) by reflexivity.
  split; intros H.
  - assert (keep_days + 1 <= delta / day) by lia.
    pose proof (Z.mul_div_le delta day Hday). nia.
  - assert (keep_days + 1 <= delta / day); [|lia].
    apply Z.div_le_lower_bound; lia.
Qed.

(** C9 as the code has it. [cleanup_old_backups] removes exactly the files
    that the pattern matches and whose age in whole days, the floor of the
    age, is greater than [keep_days]: those modified at least
    [keep_days + 1] days before [now].  Every other file stays as it
    was, whatever it holds. *)
Theorem cleanup_removes_by_whole_days :
  forall w p,
    files (cleanup_old_backups backup_dir keep_days now w) !! p =
    match files w !! p with
    | Some f =>
      if glob_match backup_dir p && ((keep_days + 1) * day <=? now - mtime f)
      then None else Some f
    | None => None
    end.
Proof.
  intros w p. unfold cleanup_old_backups, try_except.
  destruct (for_each_examine (glob backup_dir w) w) as [w' [Hrun Hlook]].
  { unfold glob. apply NoDup_filter_fst, NoDup_fst_map_to_list. }
  { intros q Hq. now apply glob_spec in Hq. }
  fold examine. rewrite Hrun. cbn [snd]. rewrite Hlook.
  destruct (files w !! p) as [f|] eqn:Hf; [|reflexivity].
  assert (Hg : bool_decide (p ∈ glob backup_dir w) = glob_match backup_dir p).
  { destruct (glob_match backup_dir p) eqn:Hm.
    - apply bool_decide_eq_true_2, glob_spec. split; [exact Hm | now exists f].
    - apply bool_decide_eq_false_2. intros Hin. apply glob_spec in Hin.
      destruct Hin as [Hin _]. congruence. }
  rewrite Hg.
  assert (Hd : (keep_days <? days (now - mtime f))
               = ((keep_days + 1) * day <=? now - mtime f)).
  { apply eq_true_iff_eq. rewrite days_exceeds, Z.leb_le. reflexivity. }
  now rewrite Hd.
Qed.

End Cleanup.

(** C9. A snapshot modified seven and a half days ago is older than
    [keep_days = 7] days, and [cleanup_old_backups] leaves it in place. *)
Lemma cleanup_keeps_snapshot_older_than_keep_days :
  let now := 7 * day + 12 * hour in
  let f := {| content := [Byte.x58]; mtime := 0 |} in
  files sample_world !! "backups/backup_a.db"%string = Some f /\
  glob_match "backups" "backups/backup_a.db" = true /\
  7 * day < now - mtime f /\
  files (cleanup_old_backups "backups" 7 now sample_world) !! "backups/backup_a.db"%string
  = Some f.
Proof. vm_compute. repeat split. Qed.

Lemma restore_is_atomic_witness :
  fst (restore_from_backup "timer_bot.db" sample_check "backups/backup_a.db" (10 * day)
         sample_world) = false.
Proof.
  apply (proj2 (restore_is_atomic "timer_bot.db" sample_check "backups/backup_a.db"
                  (10 * day) sample_world)
               {| content := [Byte.x58]; mtime := 0 |}).
  - vm_compute. reflexivity.
  - vm_compute. discriminate.
  - vm_compute. discriminate.
Defined.

Lemma create_backup_checks_first_witness :
  fst (create_backup "timer_bot.db" "backups" sample_check (fun c => c)
         (fun _ => "20240101_000000"%string) (10 * day) damaged_world) = false.
Proof.
  apply (proj1 (create_backup_checks_first "timer_bot.db" "backups" sample_check
                  (fun c => c) (fun _ => "20240101_000000"%string) (10 * day)
                  damaged_world)).
  vm_compute. discriminate.
Defined.

End BackupFacts.

(** * More about the store *)
Module StoreMore.
Import Store StoreFacts.

(** ** Users *)

Lemma insert_user_present u name db :
  (exists r, In r (users db) /\ user_id r = u) -> insert_user u name db = db.
Proof.
  intros [r [Hr Hu]]. unfold insert_user.
  replace (List.existsb (fun r0 => user_id r0 =? u) (users db)) with true; [reflexivity|].
  symmetry. apply List.existsb_exists. exists r. split; [exact Hr | now apply Z.eqb_eq].
Qed.

Lemma insert_user_registers u name db :
  exists r, In r (users (insert_user u name db)) /\ user_id r = u.
Proof.
  unfold insert_user. destruct (List.existsb _ _) eqn:E.
  - apply List.existsb_exists in E. destruct E as [r [Hr Hu]].
    exists r. split; [exact Hr | now apply Z.eqb_eq].
  - eexists. cbn [users]. split; [apply List.in_app_iff; right; now left | reflexivity].
Qed.

(** X1. Once [add_user] has returned [True] for an id, a later call for
    that id, with whatever name and whatever faults, leaves the database
    as it is: the first name stays. *)
Theorem add_user_is_idempotent :
  forall fs1 fs2 u name1 name2 db,
    fst (add_user fs1 u name1 db) = true ->
    snd (add_user fs2 u name2 (snd (add_user fs1 u name1 db)))
    = snd (add_user fs1 u name1 db).
Proof.
  intros fs1 fs2 u name1 name2 db Hok.
  destruct (add_user_cases fs1 u name1 db) as [E|E]; rewrite E in Hok |- *;
    cbn [fst snd] in *; [discriminate|].
  destruct (add_user_cases fs2 u name2 (insert_user u name1 db)) as [E2|E2];
    rewrite E2; cbn [snd]; [reflexivity|].
  apply insert_user_present, insert_user_registers.
Qed.

Lemma add_user_is_idempotent_witness :
  snd (add_user [] 7 "bob" (snd (add_user [] 7 "ann" create_tables)))
  = snd (add_user [] 7 "ann" create_tables).
Proof.
  apply (add_user_is_idempotent [] [] 7 "ann" "bob" create_tables). reflexivity.
Defined.

Lemma user_ids_recount_user u db :
  List.map user_id (users (recount_user u db)) = List.map user_id (users db).
Proof.
  cbn [recount_user users]. rewrite List.map_map. apply List.map_ext.
  intros r. now destruct (user_id r =? u).
Qed.

Lemma user_ids_recount_all db :
  List.map user_id (users (recount_all db)) = List.map user_id (users db).
Proof.
  cbn [recount_all users]. rewrite List.map_map. now apply List.map_ext.
Qed.

(** X2. In every store that a history builds from the empty one, no two
    rows of [users] carry the same id, whatever was inserted and whichever
    calls failed. *)
Theorem user_ids_are_unique :
  forall ops, List.NoDup (List.map user_id (users (run ops create_tables))).
Proof.
  intros ops.
  apply (run_invariant (fun db => List.NoDup (List.map user_id (users db)))).
  - intros db u name H. unfold insert_user.
    destruct (List.existsb _ _) eqn:E; [exact H|]. cbn [users].
    rewrite List.map_app. cbn [List.map user_id].
    apply List.NoDup_app. repeat split.
    + exact H.
    + repeat constructor. intros [].
    + intros x Hx [<-|[]]. apply List.in_map_iff in Hx. destruct Hx as [r [Hu Hr]].
      assert (List.existsb (fun r0 => user_id r0 =? u) (users db) = true); [|congruence].
      apply List.existsb_exists. exists r. split; [exact Hr | now apply Z.eqb_eq].
  - intros db u d now H _. unfold add_timer_tx. now rewrite user_ids_recount_user.
  - intros db u n H. unfold delete_timer_tx. now rewrite user_ids_recount_user.
  - intros db now H. unfold check_expired_tx. now rewrite user_ids_recount_all.
  - constructor.
Qed.

(** ** Adding a timer *)




Lemma add_timer_tx_changes u d now db : add_timer_tx u d now db <> db.
Proof.
  intros E. apply (f_equal (fun x => length (timers x))) in E.
  cbn [add_timer_tx recount_user insert_timer timers] in E.
  rewrite List.length_app in E. cbn [length] in E. lia.
Qed.

(** X4. [add_timer] is all or nothing under every fault plan: it returns
    [None] exactly when the database on disk is the one it found. *)
Theorem add_timer_is_atomic :
  forall fs u d now db,
    fst (add_timer fs u d now db) = None <-> snd (add_timer fs u d now db) = db.
Proof.
  intros fs u d now db.
  destruct (add_timer_cases fs u d now db) as [E | [_ E]]; rewrite E; cbn [fst snd].
  - tauto.
  - split; [discriminate|]. intros H. now apply add_timer_tx_changes in H.
Qed.

(** ** Deleting a timer *)

Lemma cancelled_is_inactive u b t :
  active_of u (set_status cancelled b t) = false.
Proof. unfold active_of. cbn. apply andb_false_r. Qed.

Lemma count_active_cancel_lt u n db :
  (exists t, In t (timers db) /\ active_of u t = true /\ timer_number t = n) ->
  count_active u (cancel_matching u n db) < count_active u db.
Proof.
  intros [t [Ht [Ha Hn]]]. unfold count_active, cancel_matching; cbn [timers].
  set (f := fun t0 => if active_of u t0 && (timer_number t0 =? n)
                      then set_status cancelled (notified t0) t0 else t0).
  apply inj_lt. induction (timers db) as [|x l IH]; [destruct Ht|].
  cbn [List.map List.filter].
  pose proof (count_active_map_le u f l) as Hle.
  assert (Hf : forall t0, active_of u (f t0) = true -> active_of u t0 = true).
  { intros t0. unfold f.
    destruct (active_of u t0 && (timer_number t0 =? n)) eqn:E; [|trivial].
    rewrite cancelled_is_inactive. discriminate. }
  specialize (Hle Hf).
  assert (Hx : active_of u x && (timer_number x =? n) = true ->
               active_of u (f x) = false /\ active_of u x = true).
  { intros E. unfold f. rewrite E. split; [apply cancelled_is_inactive|].
    now apply andb_true_iff in E. }
  destruct Ht as [->|Ht].
  - destruct Hx as [Hfx _]; [now rewrite Ha, Hn, Z.eqb_refl|].
    rewrite Hfx, Ha. cbn [length]. lia.
  - specialize (IH Ht).
    destruct (active_of u x && (timer_number x =? n)) eqn:E.
    + destruct Hx as [Hfx Hax]; [reflexivity|]. rewrite Hfx, Hax. cbn [length]. lia.
    + unfold f at 1. rewrite E. destruct (active_of u x); cbn [length]; lia.
Qed.

Lemma delete_timer_tx_idempotent u n db :
  delete_timer_tx u n (delete_timer_tx u n db) = delete_timer_tx u n db.
Proof.
  unfold delete_timer_tx, recount_user, cancel_matching, count_active.
  cbn [users timers seq].
  set (f := fun t => if active_of u t && (timer_number t =? n)
                     then set_status cancelled (notified t) t else t).
  assert (Hff : List.map f (List.map f (timers db)) = List.map f (timers db)).
  { rewrite List.map_map. apply List.map_ext. intros t. unfold f at 1.
    destruct (active_of u t && (timer_number t =? n)) eqn:E'.
    - assert (Hft : f t = set_status cancelled (notified t) t) by (unfold f; now rewrite E').
      rewrite Hft, cancelled_is_inactive. reflexivity.
    - assert (Hft : f t = t) by (unfold f; now rewrite E').
      now rewrite Hft, E'. }
  rewrite Hff. f_equal.
  rewrite List.map_map. apply List.map_ext. intros r.
  destruct (user_id r =? u) eqn:Eu; cbn [set_active_timers user_id]; now rewrite Eu.
Qed.

Lemma delete_timer_tx_leaves_none u n db t :
  In t (timers (delete_timer_tx u n db)) ->
  ~ (t_user_id t = u /\ timer_number t = n /\ status t = active).
Proof.
  intros Ht' [Hu [Hn Hs]].
  cbn [delete_timer_tx recount_user cancel_matching timers] in Ht'.
  apply List.in_map_iff in Ht'. destruct Ht' as [t0 [<- _]].
  destruct (active_of u t0 && (timer_number t0 =? n)) eqn:Em; [discriminate|].
  unfold active_of in Em. rewrite Hu, Hn, Hs, !Z.eqb_refl in Em. discriminate.
Qed.

(** X5. After [delete_timer] has returned [True], the user has no active
    timer with that number, and a second call, under whatever faults,
    leaves the database as the first one left it. *)
Theorem delete_timer_cancels_and_is_idempotent :
  forall fs1 fs2 u n db,
    fst (delete_timer fs1 u n db) = true ->
    let db' := snd (delete_timer fs1 u n db) in
    (forall t, In t (timers db') ->
               ~ (t_user_id t = u /\ timer_number t = n /\ status t = active)) /\
    snd (delete_timer fs2 u n db') = db'.
Proof.
  intros fs1 fs2 u n db Hok db'. subst db'.
  destruct (delete_timer_cases fs1 u n db) as [E|E]; rewrite E in Hok |- *;
    cbn [fst snd] in *; [discriminate|].
  split.
  - intros t. apply delete_timer_tx_leaves_none.
  - destruct (delete_timer_cases fs2 u n (delete_timer_tx u n db)) as [E2|E2];
      rewrite E2; cbn [snd]; [reflexivity|].
    apply delete_timer_tx_idempotent.
Qed.

Lemma delete_timer_cancels_and_is_idempotent_witness :
  snd (delete_timer [] 7 1
         (snd (delete_timer [] 7 1 (run [AddUser [] 7 "ann"; AddTimer [] 7 1 0] create_tables))))
  = snd (delete_timer [] 7 1 (run [AddUser [] 7 "ann"; AddTimer [] 7 1 0] create_tables)).
Proof.
  apply (delete_timer_cancels_and_is_idempotent [] [] 7 1
           (run [AddUser [] 7 "ann"; AddTimer [] 7 1 0] create_tables)).
  reflexivity.
Defined.

(** X6. Deleting an active timer frees its slot: for a user within the
    limit, after [delete_timer] has removed one of the user's active
    timers, the next [add_timer] is accepted. *)
Theorem delete_frees_a_slot :
  forall u n d now db,
    (exists t, In t (timers db) /\ t_user_id t = u /\ status t = active /\
               timer_number t = n) ->
    count_active u db <= 3 ->
    exists id, fst (add_timer [] u d now (snd (delete_timer [] u n db))) = Some id.
Proof.
  intros u n d now db [t [Ht [Hu [Hs Hn]]]] Hb.
  rewrite delete_timer_no_fault. cbn [snd].
  assert (Hlt : count_active u (delete_timer_tx u n db) < 3).
  { unfold delete_timer_tx.
    rewrite (count_active_ext u _ _ (timers_recount_user u _)).
    assert (count_active u (cancel_matching u n db) < count_active u db); [|lia].
    apply count_active_cancel_lt. exists t. repeat split; try assumption.
    unfold active_of. now rewrite Hu, Hs, Z.eqb_refl. }
  rewrite (add_timer_accepts u d now _ Hlt). now eexists.
Qed.

Lemma delete_frees_a_slot_witness :
  exists id,
    fst (add_timer [] 7 9 30
           (snd (delete_timer [] 7 2
                   (run [AddTimer [] 7 1 0; AddTimer [] 7 2 5; AddTimer [] 7 3 9]
                        create_tables)))) = Some id.
Proof.
  apply (delete_frees_a_slot 7 2 9 30
           (run [AddTimer [] 7 1 0; AddTimer [] 7 2 5; AddTimer [] 7 3 9] create_tables)).
  - eexists. split; [right; left; reflexivity|]. repeat split.
  - vm_compute. discriminate.
Defined.

(** ** Listing the active timers *)

Lemma get_active_timers_cases fs u db :
  get_active_timers fs u db = ([], db) \/
  get_active_timers fs u db = (select_active u db, db).
Proof.
  unfold get_active_timers.
  do 3 (next_fault fs; run_sql; try (left; reflexivity); try (right; reflexivity)).
Qed.

Lemma insert_by_number_perm t l : Permutation (insert_by_number t l) (t :: l).
Proof.
  induction l as [|x l IH]; cbn [insert_by_number]; [reflexivity|].
  destruct (timer_number t <=? timer_number x); [reflexivity|].
  rewrite IH. apply perm_swap.
Qed.

Lemma order_by_timer_number_perm l : Permutation (order_by_timer_number l) l.
Proof.
  induction l as [|t l IH]; cbn [order_by_timer_number List.fold_right]; [reflexivity|].
  rewrite insert_by_number_perm. now constructor.
Qed.

Lemma insert_by_number_sorted t l :
  Sorted number_le l -> Sorted number_le (insert_by_number t l).
Proof.
  induction l as [|x l IH]; intros Hs; cbn [insert_by_number].
  - repeat constructor.
  - destruct (timer_number t <=? timer_number x) eqn:E.
    + constructor; [exact Hs|]. constructor. unfold number_le. lia.
    + apply Z.leb_gt in E. inversion Hs as [|? ? Hs' Hhd]; subst.
      constructor; [now apply IH|].
      destruct l as [|y l]; cbn [insert_by_number].
      * constructor. unfold number_le. lia.
      * inversion Hhd; subst.
        destruct (timer_number t <=? timer_number y); constructor;
          unfold number_le in *; lia.
Qed.

Lemma order_by_timer_number_sorted l :
  StronglySorted number_le (order_by_timer_number l).
Proof.
  apply Sorted_StronglySorted.
  - intros a b c. unfold number_le. lia.
  - induction l as [|t l IH]; cbn [order_by_timer_number List.fold_right];
      [constructor | now apply insert_by_number_sorted].
Qed.

(** X7. [get_active_timers] never changes the database.  What it returns
    is in ascending order of [timer_number] and holds only active rows of
    that user; when no call fails it holds each of them, once. *)
Theorem get_active_timers_lists_active :
  forall fs u db,
    snd (get_active_timers fs u db) = db /\
    StronglySorted number_le (fst (get_active_timers fs u db)) /\
    (forall t, In t (fst (get_active_timers fs u db)) ->
               In t (timers db) /\ t_user_id t = u /\ status t = active) /\
    Permutation (fst (get_active_timers [] u db))
                (List.filter (active_of u) (timers db)).
Proof.
  intros fs u db. split; [|split; [|split]].
  - destruct (get_active_timers_cases fs u db) as [-> | ->]; reflexivity.
  - destruct (get_active_timers_cases fs u db) as [-> | ->]; cbn [fst];
      [constructor | apply order_by_timer_number_sorted].
  - intros t. destruct (get_active_timers_cases fs u db) as [-> | ->]; cbn [fst];
      [intros []|].
    intros Ht. unfold select_active in Ht.
    apply (Permutation_in _ (order_by_timer_number_perm _)) in Ht.
    apply List.filter_In in Ht. destruct Ht as [Ht Ha]. split; [exact Ht|].
    unfold active_of in Ha. apply andb_true_iff in Ha. destruct Ha as [Hu Hs].
    apply Z.eqb_eq in Hu. split; [exact Hu | now destruct (status t)].
  - apply order_by_timer_number_perm.
Qed.

(** ** What a scan returns *)

Lemma select_expired_iff now db t name :
  In (t, name) (select_expired now db) <->
  In t (timers db) /\ expired_at now t = true /\
  exists r, In r (users db) /\ user_id r = t_user_id t /\ username r = name.
Proof.
  unfold select_expired. rewrite List.in_flat_map. split.
  - intros [t0 [Ht0 Hrow]]. apply List.filter_In in Ht0.
    apply List.in_map_iff in Hrow. destruct Hrow as [r [E Hr]].
    injection E as <- <-. apply List.filter_In in Hr. destruct Hr as [Hr Hu].
    apply Z.eqb_eq in Hu. split; [tauto|]. split; [tauto|]. now exists r.
  - intros [Ht [He [r [Hr [Hu Hn]]]]]. exists t. split.
    + now apply List.filter_In.
    + apply List.in_map_iff. exists r. split; [now rewrite Hn|].
      apply List.filter_In. split; [exact Hr | now apply Z.eqb_eq].
Qed.

Lemma check_expired_no_fault now db :
  check_expired_timers [] now db
  = (select_expired now db,
     match select_expired now db with [] => db | _ :: _ => check_expired_tx now db end).
Proof.
  unfold check_expired_timers, check_expired_tx. run_sql.
  destruct (select_expired now db); reflexivity.
Qed.

Lemma expired_at_iff now t :
  expired_at now t = true <->
  status t = active /\ end_time t <= now /\ notified t = false.
Proof.
  split; [apply expired_at_spec|]. intros [Hs [He Hn]].
  unfold expired_at. rewrite Hs, Hn, (proj2 (Z.leb_le _ _) He). reflexivity.
Qed.

(** X8. When no call fails, [check_expired_timers] returns exactly the
    rows that are active, due and not notified and whose owner has a row
    in [users], each with the owner's name.  A timer of a user without
    such a row is never returned. *)
Theorem scan_returns_due_timers_of_registered_users :
  forall now db t name,
    In (t, name) (fst (check_expired_timers [] now db)) <->
    In t (timers db) /\ status t = active /\ end_time t <= now /\ notified t = false /\
    exists r, In r (users db) /\ user_id r = t_user_id t /\ username r = name.
Proof.
  intros now db t name. rewrite check_expired_no_fault. cbn [fst].
  rewrite select_expired_iff, expired_at_iff. tauto.
Qed.

Lemma users_check_expired_tx now db r' :
  In r' (users (check_expired_tx now db)) ->
  exists r, In r (users db) /\ user_id r = user_id r' /\ username r = username r'.
Proof.
  cbn [check_expired_tx recount_all users complete_ids]. intros H.
  apply List.in_map_iff in H. destruct H as [r [<- Hr]]. now exists r.
Qed.

Lemma nothing_in_nil {A} (l : list A) : (forall x, ~ In x l) -> l = [].
Proof. destruct l as [|x l]; [reflexivity|]. intros H. destruct (H x). now left. Qed.

(** X9. A scan leaves nothing due behind: right after a scan that met no
    fault, a scan for the same or an earlier time returns nothing. *)
Theorem scan_leaves_nothing_due :
  forall now now2 db,
    now2 <= now ->
    fst (check_expired_timers [] now2 (snd (check_expired_timers [] now db))) = [].
Proof.
  intros now now2 db Hle. rewrite !check_expired_no_fault. cbn [fst snd].
  apply nothing_in_nil. intros [t name] Hin.
  apply select_expired_iff in Hin. destruct Hin as [Ht [He [r [Hr [Hu Hn]]]]].
  apply expired_at_iff in He. destruct He as [Hs [Hend Hnot]].
  destruct (select_expired now db) as [|row rows] eqn:Esel.
  - assert (Hin : In (t, name) (select_expired now db)).
    { apply select_expired_iff. split; [exact Ht|]. split.
      - apply expired_at_iff. repeat split; try assumption. lia.
      - now exists r. }
    rewrite Esel in Hin. destruct Hin.
  - clear Esel row rows.
    apply users_check_expired_tx in Hr. destruct Hr as [r0 [Hr0 [Hu0 Hn0]]].
    cbn [check_expired_tx recount_all complete_ids timers] in Ht.
    apply List.in_map_iff in Ht. destruct Ht as [t0 [Et Ht0]].
    destruct (mem (timer_id t0) (ids_of (select_expired now db))) eqn:Hm.
    + subst t. discriminate.
    + subst t0. assert (Hin : In (t, username r0) (select_expired now db)).
      { apply select_expired_iff. split; [exact Ht0|]. split.
        - apply expired_at_iff. repeat split; try assumption. lia.
        - exists r0. repeat split; [assumption | congruence]. }
      assert (mem (timer_id t) (ids_of (select_expired now db)) = true); [|congruence].
      apply mem_In. unfold ids_of. apply List.in_map_iff. now exists (t, username r0).
Qed.

Lemma scan_leaves_nothing_due_witness :
  fst (check_expired_timers [] (2 * hour)
         (snd (check_expired_timers [] (3 * hour)
                 (run [AddUser [] 7 "ann"; AddTimer [] 7 1 0; AddTimer [] 7 2 0]
                      create_tables)))) = [].
Proof.
  apply (scan_leaves_nothing_due (3 * hour) (2 * hour)
           (run [AddUser [] 7 "ann"; AddTimer [] 7 1 0; AddTimer [] 7 2 0] create_tables)).
  vm_compute. discriminate.
Defined.

(** ** Rows over a history *)

Lemma lookup_map {A B} (f : A -> B) (l : list A) (i : nat) :
  List.map f l !! i = f <$> (l !! i).
Proof.
  revert i. induction l as [|x l IH]; intros [|i]; cbn; try reflexivity. apply IH.
Qed.

Lemma same_timer_refl t : same_timer t t.
Proof. unfold same_timer. tauto. Qed.

Lemma same_timer_trans a b c : same_timer a b -> same_timer b c -> same_timer a c.
Proof. unfold same_timer. intuition congruence. Qed.

Lemma same_timer_cancel u n t :
  same_timer t (if active_of u t && (timer_number t =? n)
                then set_status cancelled (notified t) t else t).
Proof.
  destruct (active_of u t && (timer_number t =? n)); [|apply same_timer_refl].
  unfold same_timer. cbn. repeat split; try tauto. discriminate.
Qed.

Lemma same_timer_complete ids t :
  same_timer t (if mem (timer_id t) ids then set_status completed true t else t).
Proof.
  destruct (mem (timer_id t) ids); [|apply same_timer_refl].
  unfold same_timer. cbn. repeat split; try tauto. discriminate.
Qed.

Lemma step_keeps_rows db o i t :
  timers db !! i = Some t ->
  exists t', timers (step db o) !! i = Some t' /\ same_timer t t'.
Proof.
  intros Hi. destruct (step_publishes db o) as [o|fs u name|fs u d now Hlt|fs u n|fs now].
  - exists t. split; [exact Hi | apply same_timer_refl].
  - rewrite timers_insert_user. exists t. split; [exact Hi | apply same_timer_refl].
  - cbn [add_timer_tx recount_user insert_timer timers].
    exists t. split; [|apply same_timer_refl].
    rewrite lookup_app_l; [exact Hi | now apply lookup_lt_Some in Hi].
  - cbn [delete_timer_tx recount_user cancel_matching timers].
    rewrite lookup_map, Hi. cbn. eexists. split; [reflexivity | apply same_timer_cancel].
  - cbn [check_expired_tx recount_all complete_ids timers].
    rewrite lookup_map, Hi. cbn. eexists. split; [reflexivity | apply same_timer_complete].
Qed.

(** X10. No operation removes or moves a row of [timers], and none
    rewrites its id, owner, times, duration or number.  A row that is no
    longer active never becomes active again, and a row that is notified
    stays notified. *)
Theorem rows_are_kept :
  forall ops db i t,
    timers db !! i = Some t ->
    exists t',
      timers (run ops db) !! i = Some t' /\
      timer_id t' = timer_id t /\ t_user_id t' = t_user_id t /\
      start_time t' = start_time t /\ end_time t' = end_time t /\
      duration t' = duration t /\ timer_number t' = timer_number t /\
      (status t <> active -> status t' <> active) /\
      (notified t = true -> notified t' = true).
Proof.
  induction ops as [|o ops IH]; intros db i t Hi; cbn [run List.fold_left].
  - exists t. split; [exact Hi | apply same_timer_refl].
  - destruct (step_keeps_rows db o i t Hi) as [t1 [H1 S1]].
    destruct (IH (step db o) i t1 H1) as [t2 [H2 S2]].
    exists t2. split; [exact H2 | exact (same_timer_trans _ _ _ S1 S2)].
Qed.

Lemma rows_are_kept_witness :
  exists t',
    timers (run [ScanExpired [] (2 * hour); AddTimer [] 7 3 (2 * hour)]
              (run [AddUser [] 7 "ann"; AddTimer [] 7 1 0] create_tables)) !! 0%nat
    = Some t' /\ end_time t' = hour.
Proof.
  destruct (rows_are_kept [ScanExpired [] (2 * hour); AddTimer [] 7 3 (2 * hour)]
              (run [AddUser [] 7 "ann"; AddTimer [] 7 1 0] create_tables) 0%nat
              {| timer_id := 1; t_user_id := 7; start_time := 0; end_time := hour;
                 duration := 1; timer_number := 1; status := active; notified := false |}
              eq_refl)
    as [t' [Ht' [_ [_ [_ [He _]]]]]].
  exists t'. split; [exact Ht' | exact He].
Defined.



(** ** Timer numbers count up from 1 *)

Lemma sql_max_of_run (l : list Z) : forall c,
  (forall (i : nat) n, l !! i = Some n -> n = Z.of_nat i + c) ->
  sql_max l = match l with [] => None | _ :: _ => Some (Z.of_nat (length l) + c - 1) end.
Proof.
  induction l as [|x l IH]; intros c H; [reflexivity|].
  cbn [sql_max]. rewrite (IH (c + 1)).
  - pose proof (H 0%nat x eq_refl) as Hx. destruct l as [|y l]; cbn [length].
    + f_equal. lia.
    + f_equal. cbn [length]. lia.
  - intros i n Hi. specialize (H (S i) n Hi). lia.
Qed.

Lemma next_number_counts_up l :
  counts_up l -> coalesce (sql_max l) 0 + 1 = Z.of_nat (length l) + 1.
Proof.
  intros H. rewrite (sql_max_of_run l 1 H). destruct l; cbn [coalesce length]; lia.
Qed.

(** X12. In every store that a history builds from the empty one, the
    timers of a user carry the numbers 1, 2, 3, ... in order of creation,
    without a gap: the row at position [i] among the user's rows has
    number [i + 1]. *)
Theorem timer_numbers_count_up :
  forall ops u (i : nat) n,
    numbers_of u (run ops create_tables) !! i = Some n -> n = Z.of_nat i + 1.
Proof.
  intros ops u. revert u.
  apply (run_invariant (fun db => forall u, counts_up (numbers_of u db))).
  - intros db u' name H u.
    now rewrite (numbers_of_users u db _ (timers_insert_user u' name db)).
  - intros db u' d now H _ u. rewrite numbers_of_add.
    destruct (u' =? u) eqn:E; [|now rewrite List.app_nil_r].
    apply Z.eqb_eq in E. subst u'. intros i n Hi.
    destruct (decide (i < length (numbers_of u db))%nat) as [Hlt|Hge].
    + rewrite lookup_app_l in Hi by exact Hlt. now apply (H u).
    + rewrite lookup_app_r in Hi by lia.
      destruct (i - length (numbers_of u db))%nat as [|k] eqn:Ek; cbn in Hi; [|discriminate].
      injection Hi as <-. unfold next_timer_number.
      rewrite (next_number_counts_up _ (H u)). lia.
  - intros db u' n H u. now rewrite numbers_of_delete.
  - intros db now H u. now rewrite numbers_of_scan.
  - intros u i n Hi. destruct i; discriminate.
Qed.

Lemma timer_numbers_count_up_witness :
  3 = Z.of_nat 2 + 1.
Proof.
  apply (timer_numbers_count_up
           [AddTimer [] 7 1 0; AddTimer [] 7 2 0; DeleteTimer [] 7 1; AddTimer [] 8 1 0;
            AddTimer [] 7 3 0] 7 2%nat 3).
  reflexivity.
Defined.

(** ** The cache of active counts, for users registered first *)

Lemma registrations_keep_counts regs : forall db,
  List.forallb is_add_user regs = true ->
  timers db = [] -> (forall r, In r (users db) -> active_timers r = 0) ->
  timers (run regs db) = [] /\
  (forall r, In r (users (run regs db)) -> active_timers r = 0).
Proof.
  induction regs as [|o regs IH]; intros db Hall Ht Hu; cbn [run List.fold_left];
    [now split|].
  cbn [List.forallb] in Hall. apply andb_true_iff in Hall. destruct Hall as [Ho Hall].
  destruct o as [fs u name| | |]; try discriminate. cbn [step].
  apply IH; [exact Hall | |];
    destruct (add_user_cases fs u name db) as [-> | ->]; cbn [snd]; try assumption.
  - now rewrite timers_insert_user.
  - unfold insert_user. destruct (List.existsb _ _); [exact Hu|]. cbn [users].
    intros r Hr. apply List.in_app_iff in Hr. destruct Hr as [Hr | [<- | []]];
      [now apply Hu | reflexivity].
Qed.

Lemma counts_agree_run ops : forall db,
  List.forallb (fun o => negb (is_add_user o)) ops = true ->
  counts_agree db -> counts_agree (run ops db).
Proof.
  induction ops as [|o ops IH]; intros db Hall H; cbn [run List.fold_left]; [exact H|].
  cbn [List.forallb] in Hall. apply andb_true_iff in Hall. destruct Hall as [Ho Hall].
  apply IH; [exact Hall|]. apply counts_agree_step; [|exact H].
  intros fs u name ->. discriminate.
Qed.

(** X13. When the users are registered on the empty store before any
    timer operation runs, and no user is registered later, the stored
    [active_timers] of every user equals the number of the user's active
    timers after every operation, whatever fails. *)
Theorem counts_agree_when_users_come_first :
  forall regs ops,
    List.forallb is_add_user regs = true ->
    List.forallb (fun o => negb (is_add_user o)) ops = true ->
    counts_agree (run ops (run regs create_tables)).
Proof.
  intros regs ops Hregs Hops. apply counts_agree_run; [exact Hops|].
  destruct (registrations_keep_counts regs create_tables Hregs eq_refl) as [Ht Hu];
    [intros r []|].
  intros r Hr. rewrite (Hu r Hr). unfold count_active. now rewrite Ht.
Qed.

Lemma counts_agree_when_users_come_first_witness :
  counts_agree (run [AddTimer [] 7 1 0; AddTimer [] 8 2 0; DeleteTimer [] 7 1;
                     ScanExpired [] (3 * hour)]
                    (run [AddUser [] 7 "ann"; AddUser [] 8 "bob"] create_tables)).
Proof.
  apply (counts_agree_when_users_come_first
           [AddUser [] 7 "ann"; AddUser [] 8 "bob"]
           [AddTimer [] 7 1 0; AddTimer [] 8 2 0; DeleteTimer [] 7 1;
            ScanExpired [] (3 * hour)]);
    reflexivity.
Defined.

(** ** No timer is returned twice *)

Lemma keys_ok_step db o : keys_ok db -> keys_ok (step db o).
Proof.
  apply (step_invariant keys_ok).
  - intros d u name [Ht Hu]. split; [now rewrite timers_insert_user|].
    unfold insert_user. destruct (List.existsb _ _) eqn:E; [exact Hu|]. cbn [users].
    rewrite List.map_app. cbn [List.map user_id].
    apply List.NoDup_app. repeat split.
    + exact Hu.
    + repeat constructor. intros [].
    + intros x Hx [<-|[]]. apply List.in_map_iff in Hx. destruct Hx as [r [Hr1 Hr]].
      assert (List.existsb (fun r0 => user_id r0 =? u) (users d) = true); [|congruence].
      apply List.existsb_exists. exists r. split; [exact Hr | now apply Z.eqb_eq].
  - intros d u dur now [Ht Hu] _. split.
    + unfold add_timer_tx, insert_timer; cbn [timers recount_user].
      rewrite List.map_app. apply sorted_snoc; [exact Ht|].
      apply List.Forall_forall. intros i Hi. apply List.in_map_iff in Hi.
      destruct Hi as [t [<- Hi]]. now apply timer_id_below_next_rowid.
    + unfold add_timer_tx. now rewrite user_ids_recount_user.
  - intros d u n [Ht Hu]. split; [now rewrite ids_delete|].
    unfold delete_timer_tx. now rewrite user_ids_recount_user.
  - intros d now [Ht Hu]. split; [now rewrite ids_scan|].
    unfold check_expired_tx. now rewrite user_ids_recount_all.
Qed.

Lemma filter_key_unique (x : Z) (us : list User) :
  List.NoDup (List.map user_id us) ->
  (length (List.filter (fun r => (user_id r =? x)%Z) us) <= 1)%nat.
Proof.
  induction us as [|r us IH]; cbn [List.map List.filter length]; [lia|].
  intros Hnd. inversion Hnd as [|? ? Hr Hnd']; subst.
  destruct (user_id r =? x) eqn:E; [|now apply IH].
  apply Z.eqb_eq in E. cbn [length].
  replace (List.filter (fun r0 => user_id r0 =? x) us) with (@nil User); [cbn; lia|].
  symmetry. apply nothing_in_nil. intros r0 Hr0. apply List.filter_In in Hr0.
  destruct Hr0 as [Hr0 E0]. apply Z.eqb_eq in E0. apply Hr.
  apply List.in_map_iff. exists r0. split; [congruence | exact Hr0].
Qed.

Lemma sorted_lt_NoDup l : StronglySorted Z.lt l -> List.NoDup l.
Proof.
  induction 1 as [|x l Hs IH Hx]; constructor; [|exact IH].
  intros Hin. rewrite List.Forall_forall in Hx. specialize (Hx x Hin). lia.
Qed.

Lemma select_expired_ids_NoDup now db :
  keys_ok db -> List.NoDup (ids_of (select_expired now db)).
Proof.
  intros [Ht Hu]. apply sorted_lt_NoDup in Ht.
  unfold ids_of, select_expired.
  induction (timers db) as [|t l IH]; cbn [List.filter List.flat_map List.map];
    [constructor|].
  cbn [List.map] in Ht. inversion Ht as [|? ? Hnot Hnd]; subst.
  destruct (expired_at now t); [|now apply IH].
  cbn [List.flat_map]. rewrite List.map_app. apply List.NoDup_app; [| now apply IH |].
  - pose proof (filter_key_unique (t_user_id t) (users db) Hu) as Hlen.
    destruct (List.filter (fun r => user_id r =? t_user_id t) (users db)) as [|r [|r' rs]];
      cbn in Hlen |- *; [constructor | repeat constructor; intros [] | lia].
  - intros id Hid Hin. apply Hnot.
    apply List.in_map_iff in Hid. destruct Hid as [row [<- Hrow]].
    apply List.in_map_iff in Hrow. destruct Hrow as [r [<- _]]. cbn [fst].
    apply List.in_map_iff in Hin. destruct Hin as [row [E Hrow]].
    apply List.in_flat_map in Hrow. destruct Hrow as [t0 [Ht0 Hrow]].
    apply List.in_map_iff in Hrow. destruct Hrow as [r0 [<- _]]. cbn [fst] in E.
    apply List.filter_In in Ht0. apply List.in_map_iff. exists t0. tauto.
Qed.

Lemma returned_ids_NoDup ops : forall db acc,
  keys_ok db -> List.NoDup acc -> (forall id, In id acc -> retired id db) ->
  List.NoDup (acc ++ returned_ids ops db).
Proof.
  induction ops as [|o ops IH]; intros db acc Hk Hnd Hret; cbn [returned_ids].
  - now rewrite List.app_nil_r.
  - rewrite List.app_assoc. apply IH.
    + now apply keys_ok_step.
    + destruct o as [| | |fs now]; try now rewrite List.app_nil_r.
      destruct (check_expired_cases fs now db) as [-> | [_ ->]]; cbn [fst];
        [now rewrite List.app_nil_r|].
      apply List.NoDup_app; [exact Hnd | now apply select_expired_ids_NoDup |].
      intros id Hacc. now apply retired_not_selected, Hret.
    + intros id Hin. apply List.in_app_iff in Hin. destruct Hin as [Hin|Hin].
      * now apply retired_step, Hret.
      * destruct o as [| | |fs now]; try destruct Hin. cbn [step].
        destruct (check_expired_cases fs now db) as [E | [_ E]]; rewrite E in Hin |- *;
          cbn [fst snd] in *; [destruct Hin|].
        now apply scan_retires.
Qed.

(** X14. Over a whole history that starts from the empty store, with any
    operations between the scans and any faults, the scans never return
    the same row id twice: no timer is handed out for notification more
    than once. *)
Theorem no_timer_is_returned_twice :
  forall ops, List.NoDup (returned_ids ops create_tables).
Proof.
  intros ops. apply (returned_ids_NoDup ops create_tables []).
  - split; constructor.
  - constructor.
  - intros id [].
Qed.

(** ** A timer fires from its end time on *)



(** ** The listing in a store built by a history *)

Lemma insert_by_number_head t l :
  Forall (fun x => timer_number t < timer_number x) l -> insert_by_number t l = t :: l.
Proof.
  destruct l as [|x l]; [reflexivity|]. intros H. inversion H; subst.
  cbn [insert_by_number]. now rewrite (proj2 (Z.leb_le _ _)) by lia.
Qed.

Lemma order_by_sorted_is_id l :
  StronglySorted number_lt l -> order_by_timer_number l = l.
Proof.
  induction 1 as [|t l Hs IH Ht]; [reflexivity|].
  cbn [order_by_timer_number List.fold_right]. fold (order_by_timer_number l).
  rewrite IH. now apply insert_by_number_head.
Qed.

Lemma active_rows_sorted u l :
  StronglySorted Z.lt (List.map timer_number (List.filter (fun t => t_user_id t =? u) l)) ->
  StronglySorted number_lt (List.filter (active_of u) l).
Proof.
  induction l as [|t l IH]; cbn [List.filter List.map]; [constructor|].
  unfold active_of at 1. destruct (t_user_id t =? u) eqn:Eu; cbn [andb List.map].
  - intros Hs. inversion Hs as [|? ? Hs' Hall]; subst. specialize (IH Hs').
    destruct (status_eqb (status t) active); [|exact IH].
    constructor; [exact IH|]. apply List.Forall_forall. intros x Hx.
    apply List.filter_In in Hx. destruct Hx as [Hx Ha].
    rewrite List.Forall_forall in Hall. apply Hall.
    apply List.in_map_iff. exists x. split; [reflexivity|].
    apply List.filter_In. split; [exact Hx|].
    unfold active_of in Ha. now apply andb_true_iff in Ha.
  - exact IH.
Qed.

(** X16. In every store that a history builds from the empty one, the
    listing of a user's active timers, when no call fails, is the user's
    active rows in order of creation; their numbers strictly increase,
    and there are at most three of them. *)
Theorem listing_in_creation_order :
  forall ops u,
    let db := run ops create_tables in
    fst (get_active_timers [] u db) = List.filter (active_of u) (timers db) /\
    StronglySorted number_lt (fst (get_active_timers [] u db)) /\
    (length (fst (get_active_timers [] u db)) <= 3)%nat.
Proof.
  intros ops u db.
  assert (Hs : StronglySorted number_lt (List.filter (active_of u) (timers db))).
  { apply active_rows_sorted. apply (numbers_sorted_run ops u). }
  assert (E : fst (get_active_timers [] u db) = List.filter (active_of u) (timers db)).
  { cbn. unfold select_active. now apply order_by_sorted_is_id. }
  rewrite E. split; [reflexivity|]. split; [exact Hs|].
  pose proof (count_active_run_bound u ops create_tables) as Hb.
  unfold count_active in Hb. fold db in Hb.
  cbn [create_tables timers List.filter length] in Hb. lia.
Qed.

End StoreMore.

(** * More about the backup manager *)
Module BackupMore.
Import Backup BackupFacts.

Ltac simp_files :=
  repeat (progress cbn [files log fst snd] in *
          || rewrite lookup_insert_eq
          || (rewrite lookup_insert_ne by congruence)
          || rewrite lookup_delete_eq
          || (rewrite lookup_delete_ne by congruence)).

(** ** The latest snapshot *)

Section Latest.
Variable backup_dir : string.

Lemma max_by_mtime_spec w rest : forall best fb,
  files w !! best = Some fb ->
  (forall p, p ∈ rest -> is_Some (files w !! p)) ->
  exists p f,
    max_by_mtime best (mtime fb) rest w = (Ok p, w) /\
    p ∈ best :: rest /\ files w !! p = Some f /\
    forall q g, q ∈ best :: rest -> files w !! q = Some g -> mtime g <= mtime f.
Proof.
  induction rest as [|x rest IH]; intros best fb Hb Hex.
  - exists best, fb. split; [reflexivity|]. split; [now left|]. split; [exact Hb|].
    intros q g Hq Hg. apply list_elem_of_singleton in Hq. subst q.
    rewrite Hb in Hg. injection Hg as <-. lia.
  - destruct (Hex x (list_elem_of_here x rest)) as [fx Hx].
    cbn [max_by_mtime]. unfold bind at 1, stat. rewrite Hx.
    destruct (mtime fb <? mtime fx) eqn:E.
    + apply Z.ltb_lt in E.
      destruct (IH x fx Hx) as [p [f [Hrun [Hp [Hf Hmax]]]]].
      { intros q Hq. apply Hex. now right. }
      exists p, f. split; [exact Hrun|]. split.
      { apply elem_of_cons in Hp. destruct Hp as [->|Hp]; [right; now left | now do 2 right]. }
      split; [exact Hf|]. intros q g Hq Hg.
      apply elem_of_cons in Hq. destruct Hq as [->|Hq].
      * rewrite Hb in Hg. injection Hg as <-.
        specialize (Hmax x fx (list_elem_of_here x rest) Hx). lia.
      * now apply (Hmax q g).
    + apply Z.ltb_ge in E.
      destruct (IH best fb Hb) as [p [f [Hrun [Hp [Hf Hmax]]]]].
      { intros q Hq. apply Hex. now right. }
      exists p, f. split; [exact Hrun|]. split.
      { apply elem_of_cons in Hp. destruct Hp as [->|Hp]; [now left | now do 2 right]. }
      split; [exact Hf|]. intros q g Hq Hg.
      apply elem_of_cons in Hq. destruct Hq as [->|Hq]; [now apply (Hmax best g); [left|]|].
      apply elem_of_cons in Hq. destruct Hq as [->|Hq].
      * rewrite Hx in Hg. injection Hg as <-.
        specialize (Hmax best fb (list_elem_of_here best rest) Hb). lia.
      * apply (Hmax q g); [now right | exact Hg].
Qed.

Lemma get_latest_backup_cases w :
  (glob backup_dir w = [] /\ get_latest_backup backup_dir w = (None, w)) \/
  (exists p f,
      get_latest_backup backup_dir w = (Some p, w) /\
      glob_match backup_dir p = true /\ files w !! p = Some f /\
      forall q g, glob_match backup_dir q = true -> files w !! q = Some g ->
                  mtime g <= mtime f).
Proof.
  unfold get_latest_backup, try_except.
  destruct (glob backup_dir w) as [|x rest] eqn:Eg; [left; now split|]. right.
  assert (Hin : forall q, q ∈ x :: rest <->
                          glob_match backup_dir q = true /\ is_Some (files w !! q)).
  { intros q. rewrite <- Eg. apply glob_spec. }
  destruct (proj1 (Hin x) (list_elem_of_here x rest)) as [_ [fx Hx]].
  destruct (max_by_mtime_spec w rest x fx Hx) as [p [f [Hrun [Hp [Hf Hmax]]]]].
  { intros q Hq. apply (Hin q). now right. }
  exists p, f. split.
  - unfold bind at 1, stat. rewrite Hx. unfold bind at 1. rewrite Hrun. reflexivity.
  - split; [now apply (Hin p)|]. split; [exact Hf|].
    intros q g Hq Hg. apply (Hmax q g); [|exact Hg]. apply Hin. split; [exact Hq | now exists g].
Qed.

(** X17. [get_latest_backup] changes nothing.  It returns [None] exactly
    when no file matches the snapshot pattern; otherwise it returns the
    path of a matching file that no other matching file is newer than. *)
Theorem latest_backup_is_newest :
  forall w,
    snd (get_latest_backup backup_dir w) = w /\
    (fst (get_latest_backup backup_dir w) = None <-> glob backup_dir w = []) /\
    (forall p, fst (get_latest_backup backup_dir w) = Some p ->
       glob_match backup_dir p = true /\
       exists f, files w !! p = Some f /\
         forall q g, glob_match backup_dir q = true -> files w !! q = Some g ->
                     mtime g <= mtime f).
Proof.
  intros w.
  destruct (get_latest_backup_cases w) as [[Eg ->] | [p [f [-> [Hm [Hf Hmax]]]]]];
    cbn [fst snd].
  - split; [reflexivity|]. split; [tauto | discriminate].
  - split; [reflexivity|]. split.
    + split; [discriminate|]. intros Eg.
      assert (Hp : p ∈ glob backup_dir w) by (apply glob_spec; split; [exact Hm | now exists f]).
      rewrite Eg in Hp. now apply not_elem_of_nil in Hp.
    + intros p' [= <-]. split; [exact Hm|]. now exists f.
Qed.

End Latest.

Lemma latest_backup_is_newest_witness :
  glob_match "backups" "backups/backup_b.db" = true /\
  exists f, files sample_world !! "backups/backup_b.db"%string = Some f /\
    forall q g, glob_match "backups" q = true -> files sample_world !! q = Some g ->
                mtime g <= mtime f.
Proof.
  apply (proj2 (proj2 (latest_backup_is_newest "backups" sample_world))).
  vm_compute. reflexivity.
Defined.

(** ** Restoring, and the round trip through a snapshot *)

Section RestoreMore.
Variable db_path backup_dir : string.
Variable integrity_check : bytes -> result string.
Variable vacuum : bytes -> bytes.
Variable strftime : Z -> string.

Lemma restore_runs backup_path now w f0 f :
  files w !! db_path = Some f0 ->
  files w !! backup_path = Some f ->
  backup_path <> db_path ->
  backup_path <> temp_of db_path ->
  restore_from_backup db_path integrity_check backup_path now w
  = if match integrity_check (content f) with
       | Ok answer => String.eqb answer "ok"
       | Raised => false
       end
    then (true, {| files := delete (temp_of db_path)
                              (<[db_path := f]> (<[temp_of db_path := f0]> (files w)));
                   log := log w ++ [(INFO, "Database restored successfully"%string)] |})
    else (false, {| files := delete (temp_of db_path)
                               (<[db_path := f0]>
                                  (<[db_path := f]> (<[temp_of db_path := f0]> (files w))));
                    log := log w ++ [(ERROR, "Database restoration failed"%string)] |}).
Proof.
  intros Hlive Hsnap Hb Ht.
  pose proof (temp_of_fresh db_path) as Hfresh.
  cbv [restore_from_backup total try_except bind ret raise copy2 unlink logger
       pragma_integrity_check sqlite_open set_files].
  cbn [files log fst snd].
  destruct (String.eqb_spec db_path (temp_of db_path)) as [E|_]; [congruence|].
  rewrite Hlive. cbn [files log].
  destruct (String.eqb_spec backup_path db_path) as [E|_]; [congruence|].
  rewrite lookup_insert_ne by congruence. rewrite Hsnap. simp_files.
  destruct (integrity_check (content f)) as [answer|]; simp_files.
  - destruct (String.eqb answer "ok"); cbn [negb]; simp_files.
    + reflexivity.
    + destruct (String.eqb_spec (temp_of db_path) db_path) as [E|_]; [congruence|].
      simp_files. reflexivity.
  - destruct (String.eqb_spec (temp_of db_path) db_path) as [E|_]; [congruence|].
    simp_files. reflexivity.
Qed.

(** X18. Restoring from a snapshot that passes the integrity check, over
    an existing live store, succeeds: the live store becomes the snapshot
    file, contents and modification time, the side file is gone, and no
    other file changes. *)
Theorem restore_installs_a_sound_snapshot :
  forall backup_path now w f0 f,
    files w !! db_path = Some f0 ->
    files w !! backup_path = Some f ->
    backup_path <> db_path ->
    backup_path <> temp_of db_path ->
    integrity_check (content f) = Ok "ok"%string ->
    let r := restore_from_backup db_path integrity_check backup_path now w in
    fst r = true /\
    files (snd r) !! db_path = Some f /\
    files (snd r) !! temp_of db_path = None /\
    (forall p, p <> db_path -> p <> temp_of db_path ->
               files (snd r) !! p = files w !! p).
Proof.
  intros backup_path now w f0 f Hlive Hsnap Hb Ht Hok r. subst r.
  pose proof (temp_of_fresh db_path) as Hfresh.
  rewrite (restore_runs backup_path now w f0 f Hlive Hsnap Hb Ht), Hok.
  cbn [String.eqb Ascii.eqb Bool.eqb fst snd files]. simp_files.
  repeat split. intros p Hp Hpt. now simp_files.
Qed.

Lemma create_backup_runs now w f0 :
  files w !! db_path = Some f0 ->
  integrity_check (content f0) = Ok "ok"%string ->
  files w !! backup_path_at backup_dir strftime now = None ->
  create_backup db_path backup_dir integrity_check vacuum strftime now w
  = (true, {| files := <[backup_path_at backup_dir strftime now
                         := {| content := vacuum (content f0); mtime := now |}]> (files w);
              log := log w ++ [(INFO, "Backup created successfully"%string)] |}).
Proof.
  intros Hlive Hok Hfree.
  cbv [create_backup total try_except bind ret raise logger vacuum_into
       pragma_integrity_check sqlite_open set_files].
  cbn [files log fst snd]. rewrite Hlive, Hok. cbn [String.eqb Ascii.eqb Bool.eqb negb].
  cbn [files log]. rewrite Hlive. cbn [files log]. rewrite Hfree. reflexivity.
Qed.

(** X19. The round trip through a snapshot.  Take a snapshot of a sound
    live store, at a path that is free; let the live store then be
    replaced by any file at all; restoring from the snapshot succeeds and
    the live store holds what [VACUUM INTO] wrote, provided that passes
    the integrity check. *)
Theorem snapshot_round_trip :
  forall now now' w f0 damaged,
    files w !! db_path = Some f0 ->
    integrity_check (content f0) = Ok "ok"%string ->
    integrity_check (vacuum (content f0)) = Ok "ok"%string ->
    files w !! backup_path_at backup_dir strftime now = None ->
    backup_path_at backup_dir strftime now <> db_path ->
    backup_path_at backup_dir strftime now <> temp_of db_path ->
    let made := create_backup db_path backup_dir integrity_check vacuum strftime now w in
    let w' := {| files := <[db_path := damaged]> (files (snd made)); log := log (snd made) |} in
    let r := restore_from_backup db_path integrity_check
               (backup_path_at backup_dir strftime now) now' w' in
    fst made = true /\ fst r = true /\
    exists f, files (snd r) !! db_path = Some f /\ content f = vacuum (content f0).
Proof.
  intros now now' w f0 damaged Hlive Hok Hvac Hfree Hb Ht made w' r.
  subst r w' made. rewrite (create_backup_runs now w f0 Hlive Hok Hfree).
  cbn [fst snd files log]. split; [reflexivity|].
  rewrite (restore_runs _ now' _ damaged
             {| content := vacuum (content f0); mtime := now |});
    [| now simp_files | now simp_files | exact Hb | exact Ht ].
  cbn [content]. rewrite Hvac. cbn [String.eqb Ascii.eqb Bool.eqb fst snd files].
  pose proof (temp_of_fresh db_path). split; [reflexivity|].
  eexists. split; [now simp_files | reflexivity].
Qed.

End RestoreMore.

Lemma restore_installs_a_sound_snapshot_witness :
  files (snd (restore_from_backup "timer_bot.db" sample_check "backups/backup_b.db"
                (10 * day) sample_world)) !! "timer_bot.db"%string
  = Some {| content := [Byte.x53]; mtime := 8 * day |}.
Proof.
  apply (restore_installs_a_sound_snapshot "timer_bot.db" sample_check
           "backups/backup_b.db" (10 * day) sample_world
           {| content := [Byte.x53; Byte.x01]; mtime := 9 * day |}
           {| content := [Byte.x53]; mtime := 8 * day |}).
  - vm_compute. reflexivity.
  - vm_compute. reflexivity.
  - vm_compute. discriminate.
  - vm_compute. discriminate.
  - reflexivity.
Defined.

Lemma snapshot_round_trip_witness :
  exists f,
    files (snd (restore_from_backup "timer_bot.db" sample_check "backups/backup_T.db"
                  (11 * day)
                  {| files := <["timer_bot.db"%string := {| content := [Byte.x58]; mtime := 0 |}]>
                                (files (snd (create_backup "timer_bot.db" "backups" sample_check
                                               (fun c => c) (fun _ => "T"%string)
                                               (10 * day) sample_world)));
                     log := log (snd (create_backup "timer_bot.db" "backups" sample_check
                                        (fun c => c) (fun _ => "T"%string)
                                        (10 * day) sample_world)) |}))
    !! "timer_bot.db"%string = Some f /\
    content f = [Byte.x53; Byte.x01].
Proof.
  apply (snapshot_round_trip "timer_bot.db" "backups" sample_check (fun c => c)
           (fun _ => "T"%string) (10 * day) (11 * day) sample_world
           {| content := [Byte.x53; Byte.x01]; mtime := 9 * day |}
           {| content := [Byte.x58]; mtime := 0 |}).
  - vm_compute. reflexivity.
  - reflexivity.
  - reflexivity.
  - vm_compute. reflexivity.
  - vm_compute. discriminate.
  - vm_compute. discriminate.
Defined.

(** ** Pruning *)

Section PruneMore.
Variable backup_dir : string.

Lemma cleanup_lookup keep_days now w p :
  files (cleanup_old_backups backup_dir keep_days now w) !! p =
  match files w !! p with
  | Some f =>
    if glob_match backup_dir p && ((keep_days + 1) * day <=? now - mtime f)
    then None else Some f
  | None => None
  end.
Proof.
  unfold cleanup_old_backups, try_except.
  destruct (for_each_examine keep_days now (glob backup_dir w) w) as [w' [Hrun Hlook]].
  { unfold glob. apply NoDup_filter_fst, NoDup_fst_map_to_list. }
  { intros q Hq. now apply glob_spec in Hq. }
  unfold bind in Hrun |- *. rewrite Hrun. cbn [snd]. rewrite Hlook.
  destruct (files w !! p) as [f|] eqn:Hf; [|reflexivity].
  assert (Hg : bool_decide (p ∈ glob backup_dir w) = glob_match backup_dir p).
  { destruct (glob_match backup_dir p) eqn:Hm.
    - apply bool_decide_eq_true_2, glob_spec. split; [exact Hm | now exists f].
    - apply bool_decide_eq_false_2. intros Hin. apply glob_spec in Hin.
      destruct Hin as [Hin _]. congruence. }
  rewrite Hg.
  assert (Hd : (keep_days <? days (now - mtime f))
               = ((keep_days + 1) * day <=? now - mtime f)).
  { apply eq_true_iff_eq. rewrite days_exceeds, Z.leb_le. reflexivity. }
  now rewrite Hd.
Qed.

(** X20. Pruning again, at the same or a later time, leaves the files
    that one pruning at the later time leaves; so pruning twice in a row
    is pruning once. *)
Theorem cleanup_absorbs_an_earlier_cleanup :
  forall keep_days now now' w,
    now <= now' ->
    files (cleanup_old_backups backup_dir keep_days now'
             (cleanup_old_backups backup_dir keep_days now w))
    = files (cleanup_old_backups backup_dir keep_days now' w).
Proof.
  intros keep_days now now' w Hle. apply map_eq. intros p.
  rewrite !cleanup_lookup.
  destruct (files w !! p) as [f|]; [|reflexivity].
  destruct (glob_match backup_dir p); cbn [andb]; [|reflexivity].
  destruct ((keep_days + 1) * day <=? now - mtime f) eqn:E1; [|reflexivity].
  apply Z.leb_le in E1.
  now rewrite (proj2 (Z.leb_le ((keep_days + 1) * day) (now' - mtime f))) by lia.
Qed.

End PruneMore.

Lemma cleanup_absorbs_an_earlier_cleanup_witness :
  files (cleanup_old_backups "backups" 7 (9 * day)
           (cleanup_old_backups "backups" 7 (8 * day) sample_world))
  = files (cleanup_old_backups "backups" 7 (9 * day) sample_world).
Proof.
  apply (cleanup_absorbs_an_earlier_cleanup "backups" 7 (8 * day) (9 * day) sample_world).
  vm_compute. discriminate.
Defined.

(** ** The side file is no snapshot *)

Lemma substring_all s : String.substring 0 (String.length s) s = s.
Proof. induction s as [|c s IH]; cbn; [reflexivity | now rewrite IH]. Qed.

Lemma length_append s t :
  String.length (s +:+ t) = (String.length s + String.length t)%nat.
Proof.
  induction s as [|c s IH]; [reflexivity|].
  change (S (String.length (s +:+ t)) = S (String.length s + String.length t)).
  now rewrite IH.
Qed.

Lemma substring_tail_app q t : forall k,
  (k <= String.length q)%nat ->
  String.substring k (String.length (q +:+ t) - k) (q +:+ t)
  = String.substring k (String.length q - k) q +:+ t.
Proof.
  induction q as [|c q IH]; intros k Hk.
  - cbn in Hk. assert (k = 0%nat) by lia. subst k.
    cbn [String.append String.length]. rewrite Nat.sub_0_r, substring_all.
    now destruct t.
  - destruct k as [|k].
    + rewrite !Nat.sub_0_r, !substring_all. reflexivity.
    + cbn [String.append String.length String.substring Nat.sub].
      apply IH. cbn in Hk. lia.
Qed.

Lemma substring_skip q t : forall k n,
  String.substring (String.length q + k) n (q +:+ t) = String.substring k n t.
Proof. induction q as [|c q IH]; intros k n; cbn; [reflexivity | apply IH]. Qed.

Lemma ends_with_db_temp x : ends_with ".db" (x +:+ ".temp") = false.
Proof.
  unfold ends_with. rewrite length_append. cbn [String.length].
  replace (String.length x + 5 - 3)%nat with (String.length x + 2)%nat by lia.
  rewrite substring_skip. cbn. apply andb_false_r.
Qed.

Lemma glob_match_temp backup_dir q : glob_match backup_dir (temp_of q) = false.
Proof.
  unfold glob_match, temp_of.
  destruct (String.prefix (backup_dir +:+ "/") (q +:+ ".temp")) eqn:Hp; [|reflexivity].
  cbn [andb]. set (k := String.length (backup_dir +:+ "/")).
  destruct (le_lt_dec k (String.length q)) as [Hk|Hk].
  - rewrite (substring_tail_app q ".temp" k Hk). unfold name_matches.
    rewrite ends_with_db_temp. now rewrite andb_false_r.
  - unfold name_matches.
    assert (Hlen : (String.length (String.substring k (String.length (q +:+ ".temp") - k)
                                     (q +:+ ".temp")) < 10)%nat).
    { pose proof (length_append q ".temp") as Hl. cbn [String.length] in Hl.
      generalize (q +:+ ".temp") Hl. intros s Hs.
      assert (Hb : forall s k n, (String.length (String.substring k n s) <= n)%nat).
      { clear. induction s as [|c s IH]; intros [|k] [|n]; cbn; try lia.
        - specialize (IH 0%nat n). lia.
        - apply IH.
        - apply IH. }
      specialize (Hb s k (String.length s - k)%nat). lia. }
    replace (10 <=? _)%nat with false; [now rewrite andb_false_r|].
    symmetry. apply Nat.leb_gt. exact Hlen.
Qed.

(** ** One pass of maintenance *)

Lemma answer_ok (integrity_check : bytes -> result string) c :
  match integrity_check c with Ok a => String.eqb a "ok" | Raised => false end = true
  <-> integrity_check c = Ok "ok"%string.
Proof.
  destruct (integrity_check c) as [a|]; [|split; discriminate].
  destruct (String.eqb_spec a "ok") as [->|Hne]; [tauto|].
  split; [discriminate | congruence].
Qed.

Section Maintenance.
Variable db_path backup_dir : string.
Variable integrity_check : bytes -> result string.
Variable vacuum : bytes -> bytes.
Variable strftime : Z -> string.
Variable optimize : bytes -> result bytes.

Lemma check_database_integrity_runs now w f0 :
  files w !! db_path = Some f0 ->
  exists lg,
    check_database_integrity db_path integrity_check now w
    = (match integrity_check (content f0) with
       | Ok a => String.eqb a "ok" | Raised => false end,
       {| files := files w; log := lg |}).
Proof.
  intros Hlive. destruct w as [fs lg0]. cbn [files] in *.
  cbv [check_database_integrity total try_except bind ret raise logger
       pragma_integrity_check sqlite_open set_files].
  cbn [files log fst snd]. rewrite Hlive.
  destruct (integrity_check (content f0)) as [a|]; cbn [files log].
  - destruct (String.eqb a "ok"); cbn [negb]; eexists; reflexivity.
  - eexists. reflexivity.
Qed.

Lemma create_backup_cases_live now w f0 :
  files w !! db_path = Some f0 ->
  let r := create_backup db_path backup_dir integrity_check vacuum strftime now w in
  (fst r = false /\ files (snd r) = files w) \/
  (integrity_check (content f0) = Ok "ok"%string /\ fst r = true /\
   files (snd r) = <[backup_path_at backup_dir strftime now
                     := {| content := vacuum (content f0); mtime := now |}]> (files w)).
Proof.
  intros Hlive r. subst r.
  cbv [create_backup total try_except bind ret raise logger vacuum_into
       pragma_integrity_check sqlite_open set_files].
  cbn [files log fst snd]. rewrite Hlive.
  destruct (integrity_check (content f0)) as [a|] eqn:Hc; cbn [files log fst snd];
    [|left; now split].
  destruct (String.eqb_spec a "ok") as [->|Hne]; cbn [negb files log fst snd];
    [|left; now split].
  rewrite Hlive. cbn [files log fst snd].
  destruct (files w !! backup_path_at backup_dir strftime now) as [[[|b c] m]|];
    cbn [files log fst snd]; try (left; now split); right; repeat split.
Qed.

Lemma optimize_database_lookup now w f0 q :
  files w !! db_path = Some f0 ->
  files (optimize_database db_path optimize now w) !! q
  = if decide (q = db_path)
    then match optimize (content f0) with
         | Ok c' => Some {| content := c'; mtime := now |}
         | Raised => Some f0
         end
    else files w !! q.
Proof.
  intros Hlive.
  cbv [optimize_database try_except bind ret raise logger sqlite_open set_files].
  cbn [files log fst snd]. rewrite Hlive.
  destruct (optimize (content f0)) as [c'|]; cbn [files log fst snd];
    destruct (decide (q = db_path)) as [->|Hne]; simp_files; congruence.
Qed.


End Maintenance.

Section Maintenance2.
Variable db_path backup_dir : string.
Variable integrity_check : bytes -> result string.
Variable vacuum : bytes -> bytes.
Variable strftime : Z -> string.
Variable optimize : bytes -> result bytes.

(** X22. The snapshot a pass has just taken outlives the pruning of the
    same pass: taken at [now] from a sound live store at a free path, it
    is still there after a pruning at any time less than
    [keep_days + 1] days later. *)
Theorem fresh_snapshot_survives_cleanup :
  forall keep_days now now' w f0,
    files w !! db_path = Some f0 ->
    integrity_check (content f0) = Ok "ok"%string ->
    files w !! backup_path_at backup_dir strftime now = None ->
    now' - now < (keep_days + 1) * day ->
    let made := create_backup db_path backup_dir integrity_check vacuum strftime now w in
    fst made = true /\
    files (cleanup_old_backups backup_dir keep_days now' (snd made))
      !! backup_path_at backup_dir strftime now
    = Some {| content := vacuum (content f0); mtime := now |}.
Proof.
  intros keep_days now now' w f0 Hlive Hok Hfree Hage made. subst made.
  rewrite (create_backup_runs db_path backup_dir integrity_check vacuum strftime
             now w f0 Hlive Hok Hfree).
  cbn [fst snd]. split; [reflexivity|].
  rewrite cleanup_lookup. simp_files. cbn [mtime].
  rewrite (proj2 (Z.leb_gt ((keep_days + 1) * day) (now' - now))) by lia.
  now rewrite andb_false_r.
Qed.

(** X23. Only the newest snapshot is tried.  The live store fails the
    integrity check and no newest snapshot is sound (or there is no
    snapshot).  After one pass the live store holds what it held, or what
    the optimizer made of it, and no other file but the side file has
    changed: an older snapshot, sound or not, is not used, and no new
    snapshot is taken. *)
Theorem maintenance_tries_only_the_newest_snapshot :
  forall keep_days t_check t_restore t_backup t_cleanup t_optimize w f0,
    files w !! db_path = Some f0 ->
    integrity_check (content f0) <> Ok "ok"%string ->
    glob_match backup_dir db_path = false ->
    (forall p f,
        glob_match backup_dir p = true -> files w !! p = Some f ->
        (forall q g, glob_match backup_dir q = true -> files w !! q = Some g ->
                     mtime g <= mtime f) ->
        integrity_check (content f) <> Ok "ok"%string) ->
    let w' := maintenance_pass db_path backup_dir integrity_check vacuum strftime optimize
                keep_days t_check t_restore t_backup t_cleanup t_optimize w in
    (exists f', files w' !! db_path = Some f' /\
                (content f' = content f0 \/ optimize (content f0) = Ok (content f'))) /\
    (forall q, q <> db_path -> q <> temp_of db_path -> files w' !! q = files w !! q).
Proof.
  intros keep_days t_check t_restore t_backup t_cleanup t_optimize w f0
         Hlive Hbad Hglob Hunsound w'. subst w'.
  unfold maintenance_pass.
  destruct (check_database_integrity_runs db_path integrity_check t_check w f0 Hlive)
    as [lg ->].
  assert (Hno : forall c, integrity_check c <> Ok "ok"%string ->
                match integrity_check c with
                | Ok a => String.eqb a "ok" | Raised => false end = false).
  { intros c Hc. destruct (match integrity_check c with
              | Ok a => String.eqb a "ok" | Raised => false end) eqn:E; [|reflexivity].
    apply (proj1 (answer_ok integrity_check c)) in E. contradiction. }
  rewrite (Hno _ Hbad). cbn [logger snd files log].
  set (w1 := {| files := files w;
                log := lg ++ [(ERROR, "Database integrity check failed"%string)] |}).
  pose proof (temp_of_fresh db_path) as Hfresh.
  assert (Htail : forall w2,
             files w2 !! db_path = Some f0 ->
             (forall q, q <> db_path -> q <> temp_of db_path ->
                        files w2 !! q = files w !! q) ->
             let made := create_backup db_path backup_dir integrity_check vacuum strftime
                           t_backup w2 in
             let w4 := if fst made
                       then cleanup_old_backups backup_dir keep_days t_cleanup (snd made)
                       else snd made in
             (exists f', files (optimize_database db_path optimize t_optimize w4) !! db_path
                         = Some f' /\
                         (content f' = content f0 \/ optimize (content f0) = Ok (content f'))) /\
             (forall q, q <> db_path -> q <> temp_of db_path ->
                        files (optimize_database db_path optimize t_optimize w4) !! q
                        = files w !! q)).
  { intros w2 H2 Hrest made w4.
    assert (E4 : files w4 = files w2).
    { subst w4 made.
      pose proof (create_backup_cases_live db_path backup_dir integrity_check vacuum strftime
                    t_backup w2 f0 H2) as Hc. cbn zeta in Hc.
      destruct Hc as [[E1 E2] | [Hok _]]; [|contradiction].
      rewrite E1. exact E2. }
    assert (H4 : files w4 !! db_path = Some f0) by now rewrite E4.
    split.
    - rewrite (optimize_database_lookup db_path optimize t_optimize w4 f0 db_path H4).
      destruct (decide (db_path = db_path)) as [_|]; [|congruence].
      destruct (optimize (content f0)) as [c'|] eqn:Ho; eexists; split; try reflexivity;
        [now right | now left].
    - intros q Hq Hqt.
      rewrite (optimize_database_lookup db_path optimize t_optimize w4 f0 q H4).
      destruct (decide (q = db_path)) as [->|_]; [congruence|].
      rewrite E4. now apply Hrest. }
  destruct (get_latest_backup_cases backup_dir w1) as [[_ ->] | [p [f [-> [Hm [Hf Hmax]]]]]].
  - specialize (Htail w1 Hlive (fun q _ _ => eq_refl)). cbn zeta in Htail.
    destruct (create_backup db_path backup_dir integrity_check vacuum strftime t_backup w1)
      as [made w3]. exact Htail.
  - cbn [files] in Hf, Hmax.
    assert (Hp1 : p <> db_path) by (intros ->; congruence).
    assert (Hp2 : p <> temp_of db_path).
    { intros ->. now rewrite glob_match_temp in Hm. }
    rewrite (restore_runs db_path integrity_check p t_restore w1 f0 f Hlive Hf Hp1 Hp2).
    rewrite (Hno _ (Hunsound p f Hm Hf Hmax)). cbn [logger snd files log].
    match goal with
    | |- context [create_backup _ _ _ _ _ _ ?x] => set (w2 := x)
    end.
    assert (H2 : files w2 !! db_path = Some f0) by (subst w2; now simp_files).
    assert (Hrest : forall q, q <> db_path -> q <> temp_of db_path ->
                              files w2 !! q = files w !! q).
    { intros q Hq Hqt. subst w2. now simp_files. }
    specialize (Htail w2 H2 Hrest). cbn zeta in Htail.
    destruct (create_backup db_path backup_dir integrity_check vacuum strftime t_backup w2)
      as [made w3]. exact Htail.
Qed.

End Maintenance2.

Lemma sample_snapshots (w : World) a b la p f :
  files w = <["timer_bot.db"%string := la]>
              (<["backups/backup_a.db"%string := a]>
              (<["backups/backup_b.db"%string := b]> ∅)) ->
  glob_match "backups" p = true -> files w !! p = Some f ->
  (p = "backups/backup_a.db"%string /\ f = a) \/
  (p = "backups/backup_b.db"%string /\ f = b).
Proof.
  intros -> Hm Hf.
  apply lookup_insert_Some in Hf. destruct Hf as [[<- _] | [_ Hf]]; [discriminate Hm|].
  apply lookup_insert_Some in Hf. destruct Hf as [[<- <-] | [_ Hf]]; [now left|].
  apply lookup_insert_Some in Hf. destruct Hf as [[<- <-] | [_ Hf]]; [now right|].
  now rewrite lookup_empty in Hf.
Qed.


Lemma fresh_snapshot_survives_cleanup_witness :
  files (cleanup_old_backups "backups" 7 (10 * day)
           (snd (create_backup "timer_bot.db" "backups" sample_check (fun c => c)
                   (fun _ => "T"%string) (10 * day) sample_world)))
    !! "backups/backup_T.db"%string
  = Some {| content := [Byte.x53; Byte.x01]; mtime := 10 * day |}.
Proof.
  apply (fresh_snapshot_survives_cleanup "timer_bot.db" "backups" sample_check (fun c => c)
           (fun _ => "T"%string) 7 (10 * day) (10 * day) sample_world
           {| content := [Byte.x53; Byte.x01]; mtime := 9 * day |}).
  - vm_compute. reflexivity.
  - reflexivity.
  - vm_compute. reflexivity.
  - vm_compute. reflexivity.
Defined.

Lemma maintenance_tries_only_the_newest_snapshot_witness :
  files (maintenance_pass "timer_bot.db" "backups" sample_check (fun c => c)
           (fun _ => "T"%string) (fun c => Ok c) 7
           (10 * day) (10 * day) (10 * day) (10 * day) (10 * day) stale_world)
    !! "backups/backup_b.db"%string
  = files stale_world !! "backups/backup_b.db"%string.
Proof.
  apply (maintenance_tries_only_the_newest_snapshot "timer_bot.db" "backups" sample_check
           (fun c => c) (fun _ => "T"%string) (fun c => Ok c) 7
           (10 * day) (10 * day) (10 * day) (10 * day) (10 * day) stale_world
           {| content := [Byte.x58]; mtime := 9 * day |}).
  - vm_compute. reflexivity.
  - vm_compute. discriminate.
  - vm_compute. reflexivity.
  - intros p f Hm Hf Hmax.
    destruct (sample_snapshots stale_world _ _ _ p f eq_refl Hm Hf) as [[-> ->] | [-> ->]];
      [vm_compute; discriminate|].
    exfalso.
    specialize (Hmax "backups/backup_a.db"%string
                  {| content := [Byte.x58]; mtime := 8 * day |} eq_refl eq_refl).
    vm_compute in Hmax. now apply Hmax.
  - discriminate.
  - vm_compute. discriminate.
Defined.

End BackupMore.

(** * The command handlers *)
Module MainFacts.
Import Store StoreFacts StoreMore Main.





Section HandlerFacts.
Variable split : string -> list string.
Variable int : string -> option Z.
Variable config : Conf.Config.


(** X26. [/delete] answers that the timer is deleted only after a
    committed [delete_timer], and then the sender has no active timer
    with that number; on every other answer the database is the one it
    found. *)
Theorem cmd_delete_guards_the_store :
  forall fs user_id text db,
    let r := cmd_delete split int fs user_id text db in
    match fst r with
    | Deleted n =>
      (exists cmd arg, split text = [cmd; arg] /\ int arg = Some n) /\
      snd r = delete_timer_tx user_id n db /\
      forall t, In t (timers (snd r)) ->
                ~ (t_user_id t = user_id /\ timer_number t = n /\ status t = active)
    | _ => snd r = db
    end.
Proof.
  intros fs u text db r. subst r. unfold cmd_delete.
  destruct (split text) as [|cmd [|arg [|x rest]]]; try reflexivity.
  destruct (int arg) as [n|] eqn:Hint; [|reflexivity].
  destruct (delete_timer_cases fs u n db) as [-> | ->]; cbn [fst snd]; [reflexivity|].
  split; [now exists cmd, arg|]. split; [reflexivity|].
  intros t. apply delete_timer_tx_leaves_none.
Qed.

End HandlerFacts.
End MainFacts.
